(** * app.py: the GDP-per-capita dashboard, embedded and verified

    The module-level code of [app.py] reshapes a wide table read from a CSV
    file into a long table (lines 7-35), derives the tick marks of the year
    slider (lines 38-40) and registers one callback, [update_figure]
    (lines 104-139), that filters the long table by a year range and a list
    of countries.

    Python values are embedded as follows.
    - integers as [Z]; binary64 floats as the kernel's primitive [float], so
      that [5.2*1e3] rounds as it does in Python;
    - strings as [string]; a list object such as [all_countries] lives in a
      heap of list objects ([gmap loc (list string)]), because [list.copy]
      and [list.remove] allocate and mutate;
    - a data frame as the list of its rows, boolean indexing as [filter];
    - a raised exception as the [Raise] outcome of the type [py]. *)

From Stdlib Require Import ZArith String Ascii List Lia.
From Stdlib Require Import PrimFloat FloatOps SpecFloat Uint63.
From stdpp Require Import base tactics option list sorting gmap strings pretty.

Local Open Scope string_scope.
Local Open Scope list_scope.
Local Open Scope Z_scope.

(** ** Outcomes of Python code *)

(** The exceptions the modelled code raises.  [FrameError] stands for the
    exception [melt] ends in when the frame has two columns of its
    identifier's name; its Python class differs between versions of pandas. *)
Inductive exn : Type :=
  | ValueError
  | KeyError
  | UndefinedVariableError
  | FrameError.

(** An outcome is a value, a raised exception, or [Unmodelled]: the input
    leaves the fragment of the libraries' behaviour this development
    describes.  No theorem below reads [Unmodelled] as a failure or as a
    success of the program. *)
Inductive py (A : Type) : Type :=
  | Ok (a : A)
  | Raise (e : exn)
  | Unmodelled.
Arguments Ok {A} a.
Arguments Raise {A} e.
Arguments Unmodelled {A}.

#[global] Instance py_ret : MRet py := fun A a => Ok a.
#[global] Instance py_bind : MBind py := fun A B f m =>
  match m with
  | Ok a => f a
  | Raise e => Raise e
  | Unmodelled => Unmodelled
  end.

(** [[f(x) for x in l]], stopping at the first element that raises. *)
Fixpoint py_map {A B : Type} (f : A -> py B) (l : list A) : py (list B) :=
  match l with
  | [] => Ok []
  | x :: l' => y ← f x; ys ← py_map f l'; mret (y :: ys)
  end.

(** ** Strings and number literals *)

Module Lex.

Definition is_digit (c : ascii) : bool :=
  let n := nat_of_ascii c in (48 <=? n)%nat && (n <=? 57)%nat.

Definition is_alpha (c : ascii) : bool :=
  let n := nat_of_ascii c in
  ((65 <=? n)%nat && (n <=? 90)%nat) || ((97 <=? n)%nat && (n <=? 122)%nat)
  || (n =? 95)%nat.

(** Python's [str.isspace] on the ASCII range. *)
Definition is_space (c : ascii) : bool :=
  let n := nat_of_ascii c in
  ((9 <=? n)%nat && (n <=? 13)%nat) || ((28 <=? n)%nat && (n <=? 32)%nat).

Definition is_ascii (c : ascii) : bool := (nat_of_ascii c <? 128)%nat.

Definition digit_value (c : ascii) : Z := Z.of_nat (nat_of_ascii c) - 48.

Fixpoint string_forall (p : ascii -> bool) (s : string) : bool :=
  match s with
  | EmptyString => true
  | String c s' => p c && string_forall p s'
  end.

(** The value of a string of decimal digits, most significant first. *)
Fixpoint digits_value_from (acc : Z) (s : string) : Z :=
  match s with
  | EmptyString => acc
  | String c s' => digits_value_from (10 * acc + digit_value c) s'
  end.

Definition digits_value (s : string) : Z := digits_value_from 0 s.

(** The longest prefix of digits, and what follows it. *)
Fixpoint take_digits (s : string) : string * string :=
  match s with
  | EmptyString => (EmptyString, EmptyString)
  | String c s' =>
      if is_digit c
      then let '(d, r) := take_digits s' in (String c d, r)
      else (EmptyString, s)
  end.

(** [re.sub] with a pattern that is one literal character: every occurrence
    of [c] is replaced by [by_]. *)
Fixpoint replace_char (c : ascii) (by_ : string) (s : string) : string :=
  match s with
  | EmptyString => EmptyString
  | String a s' =>
      if Ascii.eqb a c then by_ +:+ replace_char c by_ s'
      else String a (replace_char c by_ s')
  end.

(** The pieces of [s] between the occurrences of [sep] (never empty:
    a string without [sep] is its own single piece). *)
Fixpoint split_on (sep : ascii) (s : string) : list string :=
  match s with
  | EmptyString => [EmptyString]
  | String a s' =>
      if Ascii.eqb a sep then EmptyString :: split_on sep s'
      else match split_on sep s' with
           | p :: ps => String a p :: ps
           | [] => [String a EmptyString]
           end
  end.



End Lex.

(** ** Numbers: Python [int] and binary64 [float] *)

Inductive num : Type :=
  | NInt (z : Z)
  | NFloat (f : float).

Module Num.

(** The float nearest to a natural number below [2^63]; exact below [2^53]
    and at the powers of ten up to [10^18]. *)
Definition float_of_Z (z : Z) : float := PrimFloat.of_uint63 (Uint63.of_Z z).

(** The float denoted by the decimal literal [m * 10^e].  Both operands of
    the one multiplication or division are exact, so the result is the
    correctly rounded value, which is what Python's literal denotes; outside
    that range the literal is not modelled. *)
Definition float_literal (m e : Z) : option float :=
  if (m <? 2 ^ 53) && (-18 <=? e) && (e <=? 18) then
    Some (if 0 <=? e
          then PrimFloat.mul (float_of_Z m) (float_of_Z (10 ^ e))
          else PrimFloat.div (float_of_Z m) (float_of_Z (10 ^ (- e))))
  else None.

(** [a * b].  An [int] operand of a [float] is converted first.  A product of
    two [int]s is modelled while it stays below [2^31], where the engines
    [pd.eval] may use agree. *)
Definition mul (a b : num) : py num :=
  match a, b with
  | NInt x, NInt y => if x * y <? 2 ^ 31 then Ok (NInt (x * y)) else Unmodelled
  | NInt x, NFloat g =>
      if x <? 2 ^ 53 then Ok (NFloat (PrimFloat.mul (float_of_Z x) g)) else Unmodelled
  | NFloat f, NInt y =>
      if y <? 2 ^ 53 then Ok (NFloat (PrimFloat.mul f (float_of_Z y))) else Unmodelled
  | NFloat f, NFloat g => Ok (NFloat (PrimFloat.mul f g))
  end.

(** A finite float with its fraction dropped (rounding toward zero). *)
Definition truncate (f : float) : option Z :=
  match Prim2SF f with
  | S754_zero _ => Some 0
  | S754_finite s m e =>
      let a := if 0 <=? e then Z.pos m * 2 ^ e else Z.shiftr (Z.pos m) (- e) in
      Some (if s then - a else a)
  | S754_infinity _ | S754_nan => None
  end.

(** [Series.astype(int)] on the values [pd.eval] returned: a float is
    truncated, a non-finite one raises; an [int] passes through (below
    [2^53], where a detour through float64 changes nothing). *)
Definition astype_int (v : num) : py Z :=
  match v with
  | NInt z => if z <? 2 ^ 53 then Ok z else Unmodelled
  | NFloat f =>
      match truncate f with
      | Some z => if (- 2 ^ 63 <=? z) && (z <? 2 ^ 63) then Ok z else Unmodelled
      | None => Raise ValueError
      end
  end.

(** [int(s)] for a string [s], as [astype(int)] applies it to the year
    labels: an optional sign and decimal digits give that integer (modelled
    within int64); any other string of ASCII characters without white space
    and underscores raises [ValueError]. *)
Definition int_signed (s : string) : option Z :=
  let digits (d : string) :=
    if negb (String.eqb d "") && Lex.string_forall Lex.is_digit d
    then Some (Lex.digits_value d) else None in
  match s with
  | String c d =>
      if Ascii.eqb c "-" then Z.opp <$> digits d
      else if Ascii.eqb c "+" then digits d
      else digits s
  | EmptyString => None
  end.

Definition plain_char (c : ascii) : bool :=
  Lex.is_ascii c && negb (Lex.is_space c) && negb (Ascii.eqb c "_").

Definition py_int (s : string) : py Z :=
  match int_signed s with
  | Some z => if (- 2 ^ 63 <=? z) && (z <? 2 ^ 63) then Ok z else Unmodelled
  | None => if Lex.string_forall plain_char s then Raise ValueError else Unmodelled
  end.

End Num.

(** ** The fragment of [pd.eval] the cells reach

    After the substitution of line 33 a cell is handed to [pd.eval].  The
    model covers products [atom * atom * ...] without white space, where an
    atom is a decimal literal ([12], [12.5], [1e3], [12.5e-3]) or a name. *)

(** The scope in which [pd.eval] resolves the names of an expression: the
    variables of the frame it is called from (here a frame inside pandas,
    since line 33 hands [pd.eval] to [Series.map]) and pandas' defaults.
    Which names that scope binds is not in the program's text, so the
    development is parametric in it. *)
Class Scope : Type := bound : string -> bool.

Module Eval.

Inductive atom : Type :=
  | ALit (n : num)
  | AName (x : string).

(** [e], an optional sign and digits up to the end of the piece. *)
Definition exponent (s : string) : option Z :=
  match s with
  | String c s' =>
      let digits (neg : bool) (d : string) :=
        if negb (String.eqb d "") && Lex.string_forall Lex.is_digit d
        then Some (if neg then - Lex.digits_value d else Lex.digits_value d)
        else None in
      if Ascii.eqb c "-" then digits true s'
      else if Ascii.eqb c "+" then digits false s'
      else digits false s
  | EmptyString => None
  end.

Definition is_e (c : ascii) : bool := Ascii.eqb c "e" || Ascii.eqb c "E".

(** A decimal integer literal may not start with [0] unless it is zero. *)
Definition int_literal_ok (i : string) : bool :=
  match i with
  | String c (String _ _) => negb (Ascii.eqb c "0") || (Lex.digits_value i =? 0)
  | _ => true
  end.

Definition lex_number (piece : string) : option num :=
  let '(i, r1) := Lex.take_digits piece in
  if String.eqb i "" then None else
  match r1 with
  | EmptyString =>
      if int_literal_ok i then Some (NInt (Lex.digits_value i)) else None
  | String c r2 =>
      if Ascii.eqb c "." then
        let '(f, r3) := Lex.take_digits r2 in
        if String.eqb f "" then None else
        let m := Lex.digits_value (i +:+ f) in
        let scale := Z.of_nat (String.length f) in
        match r3 with
        | EmptyString => NFloat <$> Num.float_literal m (- scale)
        | String c3 r4 =>
            if is_e c3 then x ← exponent r4; NFloat <$> Num.float_literal m (x - scale)
            else None
        end
      else if is_e c then
        x ← exponent r2; NFloat <$> Num.float_literal (Lex.digits_value i) x
      else None
  end.

(** Names the scope of [pd.eval] binds by default, and Python's keywords:
    a piece spelled like one of them is not modelled. *)
Definition reserved : list string :=
  ["True"; "False"; "None"; "inf"; "Inf"; "list"; "tuple"; "datetime";
   "Timestamp"; "and"; "as"; "assert"; "async"; "await"; "break"; "class";
   "continue"; "def"; "del"; "elif"; "else"; "except"; "finally"; "for";
   "from"; "global"; "if"; "import"; "in"; "is"; "lambda"; "nonlocal";
   "not"; "or"; "pass"; "raise"; "return"; "try"; "while"; "with"; "yield"].

Definition is_name (piece : string) : bool :=
  match piece with
  | String c s' =>
      Lex.is_alpha c
      && Lex.string_forall (fun a => Lex.is_alpha a || Lex.is_digit a) s'
      && negb (bool_decide (piece ∈ reserved))
  | EmptyString => false
  end.

Definition lex_atom (piece : string) : option atom :=
  match lex_number piece with
  | Some n => Some (ALit n)
  | None => if is_name piece then Some (AName piece) else None
  end.

Definition is_literal (a : atom) : option num :=
  match a with ALit n => Some n | AName _ => None end.

(** A name the scope does not bind. *)
Definition unbound `{Scope} (a : atom) : bool :=
  match a with AName x => negb (bound x) | ALit _ => false end.

(** [pd.eval(s)].  The names of the expression are resolved when it is
    parsed, before anything is multiplied: a name the scope does not bind
    raises [UndefinedVariableError]; what an expression evaluates to whose
    names are all bound depends on their values and is not modelled. *)
Definition pd_eval `{Scope} (s : string) : py num :=
  match mapM lex_atom (Lex.split_on "*" s) with
  | None => Unmodelled
  | Some atoms =>
      match mapM is_literal atoms with
      | None =>
          if existsb unbound atoms then Raise UndefinedVariableError
          else Unmodelled
      | Some [] => Unmodelled
      | Some (n :: ns) => foldl (fun acc x => a ← acc; Num.mul a x) (Ok n) ns
      end
  end.

End Eval.

(** Line 33, one cell:
    [.replace({'k': '*1e3'}, regex=True).map(pd.eval).astype(int)]. *)
Definition parse_gdp `{Scope} (cell : string) : py Z :=
  v ← Eval.pd_eval (Lex.replace_char "k" "*1e3" cell); Num.astype_int v.

(** ** Data frames *)

(** [df], as [pd.read_csv] returns it for a file whose first column is
    [country]: the labels of the other columns (the years, as the header
    spells them) and, per row, the country's name and its cells under those
    columns (the cells as the file spells them; a field left empty, which
    pandas reads as NaN, is not modelled). *)
Record DataFrame : Type := {
  year_columns : list string;
  rows : list (string * list string)
}.

(** A frame has a cell under every column in every row. *)
Definition rectangular (df : DataFrame) : Prop :=
  Forall (fun row => length row.2 = length (year_columns df)) (rows df).

(** A row of [df_pivot]. *)
Record LongRecord : Type := {
  year : Z;
  country : string;
  gdp : Z
}.

#[global] Instance LongRecord_eq_dec : EqDecision LongRecord.
Proof. solve_decision. Defined.

(** [Series.unique()]: the distinct values in order of first appearance. *)
Fixpoint unique_from {A : Type} `{EqDecision A} (seen l : list A) : list A :=
  match l with
  | [] => []
  | x :: l' =>
      if decide (x ∈ seen) then unique_from seen l'
      else x :: unique_from (x :: seen) l'
  end.

Definition unique {A : Type} `{EqDecision A} (l : list A) : list A :=
  unique_from [] l.

Module Reshape.

(** Lines 17-21.  [df.transpose()] turns each row of [df] into a column;
    line 19 names the columns after the first row (the countries) and
    line 21 drops that row: the year labels are the index, and there is one
    named column of cells per row of [df]. *)
Record Transposed : Type := {
  tp_index : list string;
  tp_columns : list (string * list string)
}.

Definition transpose (df : DataFrame) : Transposed :=
  {| tp_index := year_columns df; tp_columns := rows df |}.

(** Line 23, [reset_index()]: the index becomes one more column, the
    first, named [index], or [level_0] when a column is named [index]
    already; [ValueError] when the name it would take is taken too. *)
Definition reset_index (tp : Transposed) : py (list (string * list string)) :=
  if decide ("index" ∈ (tp_columns tp).*1) then
    if decide ("level_0" ∈ (tp_columns tp).*1) then Raise ValueError
    else Ok (("level_0", tp_index tp) :: tp_columns tp)
  else Ok (("index", tp_index tp) :: tp_columns tp).

(** Line 25, [rename(columns={'index': 'year'})]: every column named
    [index] is named [year]. *)
Definition rename_index (frame : list (string * list string))
    : list (string * list string) :=
  (fun col => (if decide (col.1 = "index") then "year" else col.1, col.2))
    <$> frame.

(** [df_tp] as line 31 finds it: named columns, the year labels among them. *)
Definition df_tp (df : DataFrame) : py (list (string * list string)) :=
  frame ← reset_index (transpose df); mret (rename_index frame).

(** Line 28. *)
Definition all_countries (df : DataFrame) : list string :=
  unique (rows df).*1.

(** A row of the molten frame, before lines 33 and 35 convert it. *)
Record Molten : Type := {
  m_year : string;
  m_country : string;
  m_gdp : string
}.

(** The molten rows: for each name of [value_vars] in turn, every value
    column of that name, and down each column one row per year. *)
Definition melt_column (years : list string) (c : string)
    (col : string * list string) : list Molten :=
  if decide (col.1 = c)
  then (fun yv => {| m_year := yv.1; m_country := c; m_gdp := yv.2 |})
         <$> zip years col.2
  else [].

Definition molten (years : list string) (cols : list (string * list string))
    (value_vars : list string) : list Molten :=
  c ← value_vars; col ← cols; melt_column years c col.

(** Line 31, [melt(id_vars, value_vars, var_name, value_name)], for one
    identifier: [ValueError] when a column of the frame is named like the
    value column to be made; [KeyError] when a requested column is missing;
    and the identifier must name one column only. *)
Definition melt (frame : list (string * list string)) (id_var : string)
    (value_vars : list string) (value_name : string) : py (list Molten) :=
  if decide (value_name ∈ frame.*1) then Raise ValueError
  else if decide (Forall (fun c => c ∈ frame.*1) (id_var :: value_vars)) then
    match filter (fun col => col.1 = id_var) frame with
    | [id_col] =>
        Ok (molten id_col.2 (filter (fun col => col.1 ≠ id_var) frame) value_vars)
    | _ => Raise FrameError
    end
  else Raise KeyError.

(** Line 33 on the whole column, then line 35. *)
Definition convert_gdp `{Scope} (m : Molten) : py (string * string * Z) :=
  g ← parse_gdp (m_gdp m); mret (m_year m, m_country m, g).

Definition convert_year (r : string * string * Z) : py LongRecord :=
  y ← Num.py_int r.1.1; mret {| year := y; country := r.1.2; gdp := r.2 |}.

(** Lines 17-31. *)
Definition melted (df : DataFrame) : py (list Molten) :=
  frame ← df_tp df; melt frame "year" (all_countries df) "gdp".

(** Lines 17-35. *)
Definition df_pivot `{Scope} (df : DataFrame) : py (list LongRecord) :=
  if decide (rectangular df) then
    m0 ← melted df;
    m ← py_map convert_gdp m0;
    py_map convert_year m
  else Unmodelled.

(** Lines 38-40. *)
Definition unique_years (t : list LongRecord) : list Z := unique (year <$> t).

Definition mark_years (unique_years : list Z) : list Z :=
  filter (fun y => y `mod` 25 = 0) unique_years.

(** [Series.min()] and [Series.max()], the slider's bounds (lines 69-71);
    [None] on an empty column. *)
Definition series_min (l : list Z) : option Z :=
  match l with [] => None | x :: l' => Some (foldl Z.min x l') end.

Definition series_max (l : list Z) : option Z :=
  match l with [] => None | x :: l' => Some (foldl Z.max x l') end.

End Reshape.

(** ** The running program: globals, list objects, the callback *)

Module App.

Definition loc : Type := nat.

(** What the callback can reach: the list objects, what was printed, and the
    module's globals [df_pivot] (a frame, read by indexing only) and
    [all_countries] (a reference to a list object). *)
Record State : Type := {
  heap : gmap loc (list string);
  stdout : list (list string);
  df_pivot : list LongRecord;
  all_countries : loc
}.

Definition set_heap (h : gmap loc (list string)) (s : State) : State :=
  {| heap := h; stdout := stdout s; df_pivot := df_pivot s;
     all_countries := all_countries s |}.

Definition set_stdout (o : list (list string)) (s : State) : State :=
  {| heap := heap s; stdout := o; df_pivot := df_pivot s;
     all_countries := all_countries s |}.

(** A computation reads and writes the state and ends in an outcome; what
    it wrote before it raised stays written. *)
Definition M (A : Type) : Type := State -> py A * State.

#[global] Instance M_ret : MRet M := fun A a s => (Ok a, s).
#[global] Instance M_bind : MBind M := fun A B f m s =>
  match m s with
  | (Ok a, s') => f a s'
  | (Raise e, s') => (Raise e, s')
  | (Unmodelled, s') => (Unmodelled, s')
  end.

Definition get_df_pivot : M (list LongRecord) := fun s => (Ok (df_pivot s), s).
Definition get_all_countries : M loc := fun s => (Ok (all_countries s), s).

(** [l.copy()]: a new list object with the same items. *)
Definition list_copy (l : loc) : M loc := fun s =>
  match heap s !! l with
  | Some xs =>
      let l' := fresh (dom (heap s)) in
      (Ok l', set_heap (<[l' := xs]> (heap s)) s)
  | None => (Unmodelled, s)
  end.

(** [xs] without the first item equal to [x]. *)
Fixpoint remove_first (x : string) (xs : list string) : list string :=
  match xs with
  | [] => []
  | y :: xs' => if decide (y = x) then xs' else y :: remove_first x xs'
  end.

(** [l.remove(x)]: the first item equal to [x] leaves the list object;
    [ValueError] when there is none. *)
Definition list_remove (l : loc) (x : string) : M unit := fun s =>
  match heap s !! l with
  | Some xs =>
      if decide (x ∈ xs)
      then (Ok (), set_heap (<[l := remove_first x xs]> (heap s)) s)
      else (Raise ValueError, s)
  | None => (Unmodelled, s)
  end.

(** The items of a list object, as a [for] loop over it meets them when
    its body leaves the object alone. *)
Definition list_items (l : loc) : M (list string) := fun s =>
  match heap s !! l with
  | Some xs => (Ok xs, s)
  | None => (Unmodelled, s)
  end.

(** [print(l)]. *)
Definition print_list (l : loc) : M unit := fun s =>
  match heap s !! l with
  | Some xs => (Ok (), set_stdout (stdout s ++ [xs]) s)
  | None => (Unmodelled, s)
  end.

(** [for x in xs: body(x)]. *)
Fixpoint for_each {A : Type} (xs : list A) (body : A -> M unit) : M unit :=
  match xs with
  | [] => mret ()
  | x :: xs' => body x;; for_each xs' body
  end.

(** Lines 120-121: one boolean indexing per excluded country. *)
Definition drop_countries (countries_filter : list string)
    (filtered_df : list LongRecord) : list LongRecord :=
  foldl (fun fdf c => filter (fun r => country r ≠ c) fdf)
        filtered_df countries_filter.

(** Lines 113-121. *)
Definition exclude_unselected (countries : list string)
    (filtered_df : list LongRecord) : M (list LongRecord) :=
  ac ← get_all_countries;
  countries_filter ← list_copy ac;
  print_list countries_filter;;
  for_each countries (fun c => list_remove countries_filter c);;
  cf ← list_items countries_filter;
  mret (drop_countries cf filtered_df).

(** Lines 108-139.  The figure [px.line] draws is determined by the frame
    it is given; the callback is modelled up to that frame. *)
Definition update_figure (year_range : Z * Z) (countries : list string)
    : M (list LongRecord) :=
  df ← get_df_pivot;
  let filtered_df := filter (fun r => year_range.1 <= year r) df in
  let filtered_df := filter (fun r => year r <= year_range.2) filtered_df in
  exclude_unselected countries filtered_df.

(** Lines 7-35 up to the globals the callback uses. *)
Definition startup `{Scope} (df : DataFrame) : py State :=
  t ← Reshape.df_pivot df;
  mret {| heap := {[ 0%nat := Reshape.all_countries df ]};
          stdout := [];
          df_pivot := t;
          all_countries := 0%nat |}.

End App.

(** ** Definitions the statements use *)

(** The loop of lines 117-118 on the items of the copied list: [Some] of
    what is left when every removal succeeds, [None] when one raises. *)
Fixpoint remove_each (countries xs : list string) : option (list string) :=
  match countries with
  | [] => Some xs
  | c :: cs => if decide (c ∈ xs) then remove_each cs (App.remove_first c xs) else None
  end.

(** The items of the list object [all_countries] refers to. *)
Definition country_set (s : App.State) : list string :=
  default [] (App.heap s !! App.all_countries s).

(** What [startup] establishes and the callback relies on. *)
Definition state_ok (s : App.State) : Prop :=
  is_Some (App.heap s !! App.all_countries s)
  ∧ NoDup (country_set s)
  ∧ Forall (fun r => country r ∈ country_set s) (App.df_pivot s).

#[global] Instance state_ok_dec s : Decision (state_ok s).
Proof. unfold state_ok. apply _. Defined.

(** [s'] differs from [s] at most in the list object at [l]. *)
Definition same_but (l : App.loc) (s s' : App.State) : Prop :=
  App.df_pivot s' = App.df_pivot s
  ∧ App.all_countries s' = App.all_countries s
  ∧ App.stdout s' = App.stdout s
  ∧ ∀ l0, l0 ≠ l → App.heap s' !! l0 = App.heap s !! l0.

(** The filter predicate, in the words of the specification: the year lies
    in the range and the country is one of the selected ones. *)
Definition passes (year_range : Z * Z) (selected : list string)
    (r : LongRecord) : Prop :=
  (year_range.1 <= year r <= year_range.2) ∧ country r ∈ selected.

#[global] Instance passes_dec yr cs r : Decision (passes yr cs r).
Proof. unfold passes. apply _. Defined.

(** Filtering by direct inclusion, as the specification words it. *)
Definition inclusion_filter (selected : list string)
    (t : list LongRecord) : list LongRecord :=
  filter (fun r => country r ∈ selected) t.





(** The outcome is a value. *)
Definition is_Ok {A : Type} (x : py A) : Prop :=
  match x with Ok _ => True | _ => False end.

#[global] Instance is_Ok_dec {A : Type} (x : py A) : Decision (is_Ok x).
Proof. destruct x; simpl; apply _. Defined.

Definition from_Ok {A : Type} (d : A) (x : py A) : A :=
  match x with Ok a => a | _ => d end.

#[global] Instance exn_eq_dec : EqDecision exn.
Proof. solve_decision. Defined.

#[global] Instance py_eq_dec {A : Type} `{EqDecision A} : EqDecision (py A).
Proof. solve_decision. Defined.

(** The names lines 23-31 give to columns of their own: a country of
    such a name would share a column's name. *)
Definition own_columns : list string := ["index"; "year"; "gdp"].

Definition no_clash (df : DataFrame) : Prop :=
  Forall (fun c => c ∉ own_columns) (rows df).*1.

#[global] Instance no_clash_dec df : Decision (no_clash df).
Proof. unfold no_clash. apply _. Defined.

(** For the examples, which are closed: a scope that binds no name. *)
#[global] Instance no_names : Scope := fun _ => false.

(** A well-formed wide table: the country names are unique; every row has
    a cell under each year column; the year labels are integers, and
    distinct ones; every cell is one that line 33 converts. *)
Definition wide_ok `{Scope} (df : DataFrame) : Prop :=
  NoDup (rows df).*1
  ∧ rectangular df
  ∧ Forall (fun y => is_Ok (Num.py_int y)) (year_columns df)
  ∧ NoDup (Num.py_int <$> year_columns df)
  ∧ Forall (fun row => Forall (fun cell => is_Ok (parse_gdp cell)) row.2) (rows df).

#[global] Instance wide_ok_dec `{Scope} df : Decision (wide_ok df).
Proof. unfold wide_ok. apply _. Defined.

(** The record lines 33 and 35 make of a molten row whose cell and year
    label convert. *)
Definition long_of_molten `{Scope} (m : Reshape.Molten) : LongRecord :=
  {| year := from_Ok 0 (Num.py_int (Reshape.m_year m));
     country := Reshape.m_country m;
     gdp := from_Ok 0 (parse_gdp (Reshape.m_gdp m)) |}.

(** The molten rows one row of [df] gives. *)
Definition melt_row (years : list string) (row : string * list string)
    : list Reshape.Molten :=
  (fun yv => {| Reshape.m_year := yv.1; Reshape.m_country := row.1;
                Reshape.m_gdp := yv.2 |}) <$> zip years row.2.

(** What identifies a record of the long table. *)
Definition key (r : LongRecord) : string * Z := (country r, year r).

(** The years the labels of the year columns denote. *)
Definition year_values (df : DataFrame) : list Z :=
  (fun y => from_Ok 0 (Num.py_int y)) <$> year_columns df.

(** The records of one country are contiguous: between two records of a
    country there is none of another. *)
Definition grouped_by_country (t : list LongRecord) : Prop :=
  ∀ r1 r2 r3, [r1; r2; r3] `sublist_of` t →
    country r1 = country r3 → country r2 = country r1.

(** Within a country the years ascend. *)
Definition years_ascending (t : list LongRecord) : Prop :=
  ∀ r1 r2, [r1; r2] `sublist_of` t →
    country r1 = country r2 → year r1 < year r2.

(** A dataset that has the years 1800 and 1850 but not 1825. *)
Definition gap_df : DataFrame :=
  {| year_columns := ["1800"; "1850"];
     rows := [("USA", ["2.1k"; "3.2k"])] |}.

(** A dataset whose year columns are not in ascending order. *)
Definition unsorted_df : DataFrame :=
  {| year_columns := ["1825"; "1800"];
     rows := [("USA", ["2.5k"; "2.1k"]); ("France", ["2k"; "1800"])] |}.

(** Two countries over three years, for the examples. *)
(** A table with a country named like the column of the year labels. *)
Definition clash_df : DataFrame :=
  {| year_columns := ["1800"; "1825"];
     rows := [("USA", ["2k"; "3k"]); ("year", ["1k"; "4k"])] |}.

Definition sample_df : DataFrame :=
  {| year_columns := ["1800"; "1825"; "1850"];
     rows := [("USA", ["2.1k"; "2.5k"; "3.2k"]);
              ("France", ["1800"; "2k"; "32.3k"])] |}.

(** The state [startup] reaches on [sample_df]. *)
Definition sample_state : App.State :=
  {| App.heap := {[ 0%nat := ["USA"; "France"] ]};
     App.stdout := [];
     App.df_pivot :=
       [ {| year := 1800; country := "USA"; gdp := 2100 |};
         {| year := 1825; country := "USA"; gdp := 2500 |};
         {| year := 1850; country := "USA"; gdp := 3200 |};
         {| year := 1800; country := "France"; gdp := 1800 |};
         {| year := 1825; country := "France"; gdp := 2000 |};
         {| year := 1850; country := "France"; gdp := 32299 |} ];
     App.all_countries := 0%nat |}.

(** ** The controls and the callback's wiring *)

(** The order [sorted] puts strings in: character by character, by code
    (on the bytes of UTF-8 text that is the order of the code points). *)
Definition str_le (a b : string) : Prop := String.leb a b = true.

#[global] Instance str_le_dec : RelDecision str_le.
Proof. intros a b. unfold str_le. apply _. Defined.

#[global] Instance str_le_total : Total str_le.
Proof. intros a b. apply String.leb_total. Qed.

(** [sorted(l)] on strings. *)
Definition py_sorted (l : list string) : list string := merge_sort str_le l.

(** An entry of the dropdown's [options] (line 56). *)
Record DropdownOption : Type := {
  label : string;
  value : string
}.

(** Lines 55-59. *)
Definition dropdown_options (df : DataFrame) : list DropdownOption :=
  (fun x => {| label := x; value := x |}) <$> py_sorted (unique (rows df).*1).

(** Line 54, the dropdown's initial [value]. *)
Definition default_countries : list string :=
  ["USA"; "France"; "China"; "Egypt"; "Vietnam"; "Brazil"].

(** Line 75: [{str(year): str(year) for year in mark_years}]. *)
Definition slider_marks (mark_years : list Z) : gmap string string :=
  foldl (fun m y => <[pretty y := pretty y]> m) ∅ mark_years.

(** Lines 66-79, the arguments of [dcc.RangeSlider]; a bound is [None] when
    the year column is empty. *)
Record RangeSlider : Type := {
  slider_min : option Z;
  slider_max : option Z;
  slider_step : Z;
  marks : gmap string string;
  slider_value : option Z * option Z;
  allowCross : bool
}.

Definition year_slider (t : list LongRecord) : RangeSlider :=
  {| slider_min := Reshape.series_min (year <$> t);
     slider_max := Reshape.series_max (year <$> t);
     slider_step := 5;
     marks := slider_marks (Reshape.mark_years (Reshape.unique_years t));
     slider_value := (Reshape.series_min (year <$> t),
                      Reshape.series_max (year <$> t));
     allowCross := false |}.

(** Lines 104-107: every change of one of the two inputs calls the callback
    with the controls' current values; whatever a call returns or raises,
    the process goes on in the state the call left. *)
Fixpoint run_calls (calls : list (Z * Z * list string)) (s : App.State)
    : App.State :=
  match calls with
  | [] => s
  | (yr, cs) :: calls' => run_calls calls' (App.update_figure yr cs s).2
  end.

(** The first call, with the controls' initial values. *)
Definition initial_call (s : App.State) : py (list LongRecord) :=
  match slider_value (year_slider (App.df_pivot s)) with
  | (Some lo, Some hi) => (App.update_figure (lo, hi) default_countries s).1
  | _ => Unmodelled
  end.

(** A dataset without Egypt, one of the dropdown's initial countries. *)
Definition no_egypt_df : DataFrame :=
  {| year_columns := ["1800"];
     rows := [("USA", ["2.1k"]); ("France", ["1800"]); ("China", ["1k"]);
              ("Vietnam", ["900"]); ("Brazil", ["1.2k"])] |}.

(** A dataset with a cell that is no number. *)
Definition broken_df : DataFrame :=
  {| year_columns := ["1800"; "1825"];
     rows := [("USA", ["2.1k"; "abc"]); ("France", ["1800"; "2k"])] |}.

(** The state [startup] reaches on [no_egypt_df]. *)
Definition no_egypt_state : App.State :=
  from_Ok sample_state (App.startup no_egypt_df).

(** The outcome is a raised exception. *)
Definition is_Raise {A : Type} (x : py A) : Prop :=
  match x with Raise _ => True | _ => False end.

#[global] Instance is_Raise_dec {A : Type} (x : py A) : Decision (is_Raise x).
Proof. destruct x; simpl; apply _. Defined.

(** The outcome is a value or a raised exception. *)
Definition modelled {A : Type} (x : py A) : Prop :=
  match x with Unmodelled => False | _ => True end.

#[global] Instance modelled_dec {A : Type} (x : py A) : Decision (modelled x).
Proof. destruct x; simpl; apply _. Defined.

(** Closes a decidable goal about concrete data by evaluation. *)
Ltac by_evaluation := apply (bool_decide_unpack _); vm_compute; exact I.

(** ** Lists *)

Section lists.
Context {A : Type} `{EqDecision A}.

Lemma filter_ext_in (P Q : A -> Prop) `{!∀ x, Decision (P x)}
    `{!∀ x, Decision (Q x)} (l : list A) :
  (∀ x, x ∈ l → P x ↔ Q x) → filter P l = filter Q l.
Proof.
  induction l as [|a l IH]; intros Hext; [done|].
  rewrite !filter_cons.
  rewrite IH by (intros x Hx; apply Hext; by right).
  apply decide_ext, Hext. by left.
Qed.

Lemma elem_of_unique_from (seen l : list A) x :
  x ∈ unique_from seen l ↔ x ∈ l ∧ x ∉ seen.
Proof.
  revert seen. induction l as [|a l IH]; intros seen; simpl.
  - rewrite !elem_of_nil. tauto.
  - case_decide as Ha.
    + rewrite IH, elem_of_cons. split; [tauto|].
      intros [[->|?] ?]; tauto.
    + rewrite !elem_of_cons, IH, elem_of_cons. split.
      * intros [->|(? & ?)]; tauto.
      * intros [[->|?] ?]; [by left|].
        destruct (decide (x = a)); tauto.
Qed.

Lemma NoDup_unique_from (seen l : list A) : NoDup (unique_from seen l).
Proof.
  revert seen. induction l as [|a l IH]; intros seen; simpl.
  - constructor.
  - case_decide; [apply IH|]. constructor; [|apply IH].
    rewrite elem_of_unique_from, elem_of_cons. tauto.
Qed.

Lemma unique_from_NoDup (seen l : list A) :
  NoDup l → (∀ x, x ∈ l → x ∉ seen) → unique_from seen l = l.
Proof.
  revert seen. induction l as [|a l IH]; intros seen Hnd Hs; [done|].
  apply NoDup_cons in Hnd as [Ha Hnd]. simpl.
  rewrite decide_False by (apply Hs; by left).
  f_equal. apply IH; [done|].
  intros x Hx. rewrite elem_of_cons. intros [->|?]; [done|].
  eapply Hs; [by right|done].
Qed.

Lemma elem_of_unique (l : list A) x : x ∈ unique l ↔ x ∈ l.
Proof. unfold unique. rewrite elem_of_unique_from, elem_of_nil. tauto. Qed.

Lemma NoDup_unique (l : list A) : NoDup (unique l).
Proof. apply NoDup_unique_from. Qed.

Lemma unique_NoDup (l : list A) : NoDup l → unique l = l.
Proof. intros. apply unique_from_NoDup; [done|]. intros x _. apply not_elem_of_nil. Qed.
End lists.

(** ** The removal loop and the exclusion filter, as pure functions *)

Lemma filter_all {A : Type} (P : A -> Prop) `{!∀ x, Decision (P x)} (l : list A) :
  (∀ x, x ∈ l → P x) → filter P l = l.
Proof.
  induction l as [|a l IH]; intros Hall; [done|].
  rewrite filter_cons_True by (apply Hall; by left).
  f_equal. apply IH. intros x Hx. apply Hall. by right.
Qed.

Lemma filter_none {A : Type} (P : A -> Prop) `{!∀ x, Decision (P x)} (l : list A) :
  (∀ x, x ∈ l → ¬ P x) → filter P l = [].
Proof.
  induction l as [|a l IH]; intros Hall; [done|].
  rewrite filter_cons_False by (apply Hall; by left).
  apply IH. intros x Hx. apply Hall. by right.
Qed.

Lemma filter_fmap_comm {A B : Type} (f : A -> B) (P : B -> Prop)
    `{!∀ y, Decision (P y)} (l : list A) :
  filter P (f <$> l) = f <$> filter (fun x => P (f x)) l.
Proof.
  induction l as [|x l IH]; [done|].
  rewrite fmap_cons, !filter_cons. case_decide; by rewrite ?fmap_cons, IH.
Qed.

Lemma length_filter_fmap {A B : Type} (f : A -> B) (P : B -> Prop) (Q : A -> Prop)
    `{!∀ y, Decision (P y)} `{!∀ x, Decision (Q x)} (l : list A) :
  (∀ x, Q x ↔ P (f x)) →
  length (filter Q l) = length (filter P (f <$> l)).
Proof.
  intros HQ. rewrite filter_fmap_comm, length_fmap. f_equal.
  by apply list_filter_iff.
Qed.

Lemma remove_first_filter x xs :
  NoDup xs → App.remove_first x xs = filter (fun y => y ≠ x) xs.
Proof.
  induction xs as [|y xs IH]; intros Hnd; [done|].
  apply NoDup_cons in Hnd as [Hy Hnd]. simpl. rewrite filter_cons.
  destruct (decide (y = x)) as [->|Hne].
  - rewrite decide_False by tauto.
    symmetry. apply filter_all. intros z Hz ->. done.
  - rewrite decide_True by done. f_equal. by apply IH.
Qed.

Lemma remove_each_difference cs xs :
  NoDup xs → NoDup cs → cs ⊆ xs →
  remove_each cs xs = Some (filter (fun y => y ∉ cs) xs).
Proof.
  revert xs. induction cs as [|c cs IH]; intros xs Hxs Hcs Hsub; simpl.
  - f_equal. symmetry. apply filter_all. intros x _. apply not_elem_of_nil.
  - apply NoDup_cons in Hcs as [Hc Hcs].
    rewrite decide_True by (apply Hsub; by left).
    rewrite remove_first_filter by done.
    rewrite IH; [|by apply NoDup_filter|done|].
    + f_equal. rewrite list_filter_filter. apply list_filter_iff.
      intros y. rewrite not_elem_of_cons. tauto.
    + intros y Hy. apply list_elem_of_filter. split.
      * intros ->. done.
      * apply Hsub. by right.
Qed.

Lemma remove_each_Some cs xs ys :
  NoDup xs → remove_each cs xs = Some ys → NoDup cs ∧ cs ⊆ xs.
Proof.
  revert xs. induction cs as [|c cs IH]; intros xs Hxs Hrun; simpl in *.
  - split; [constructor|]. intros x Hx. by apply elem_of_nil in Hx.
  - case_decide as Hc; [|done].
    rewrite remove_first_filter in Hrun by done.
    apply IH in Hrun as [Hcs Hsub]; [|by apply NoDup_filter].
    split.
    + constructor; [|done]. intros Hin.
      apply Hsub, list_elem_of_filter in Hin as [Hne _]. done.
    + intros y [->|Hy]%elem_of_cons; [done|].
      by apply Hsub, list_elem_of_filter in Hy as [_ ?].
Qed.

(** On a duplicate-free list the removals all succeed exactly when the
    names are distinct and all present. *)
Lemma remove_each_is_Some cs xs :
  NoDup xs → is_Some (remove_each cs xs) ↔ NoDup cs ∧ cs ⊆ xs.
Proof.
  intros Hxs. split.
  - intros [ys Hys]. by eapply remove_each_Some.
  - intros [Hcs Hsub]. rewrite remove_each_difference by done. by eexists.
Qed.

Lemma drop_countries_filter cf t :
  App.drop_countries cf t = filter (fun r => country r ∉ cf) t.
Proof.
  unfold App.drop_countries. revert t.
  induction cf as [|c cf IH]; intros t; simpl.
  - symmetry. apply filter_all. intros r _. apply not_elem_of_nil.
  - rewrite IH, list_filter_filter. apply list_filter_iff.
    intros r. rewrite not_elem_of_cons. tauto.
Qed.

(** ** Running the callback *)

Lemma same_but_refl l s : same_but l s s.
Proof. by repeat split. Qed.

Lemma same_but_trans l s1 s2 s3 :
  same_but l s1 s2 → same_but l s2 s3 → same_but l s1 s3.
Proof.
  intros (? & ? & ? & H12) (? & ? & ? & H23).
  repeat split; try congruence.
  intros l0 Hl0. rewrite H23, H12; done.
Qed.

Lemma list_remove_run l x s xs :
  App.heap s !! l = Some xs →
  ∃ s', App.list_remove l x s
        = (if decide (x ∈ xs) then Ok () else Raise ValueError, s')
      ∧ App.heap s' !! l = Some (if decide (x ∈ xs) then App.remove_first x xs else xs)
      ∧ same_but l s s'.
Proof.
  intros Hl. unfold App.list_remove. rewrite Hl.
  case_decide.
  - eexists. split; [done|]. split; [apply lookup_insert_eq|].
    repeat split; try done. intros l0 Hl0. simpl. by rewrite lookup_insert_ne.
  - eexists. split; [done|]. split; [done|]. apply same_but_refl.
Qed.

(** Lines 117-118 run as [remove_each] computes. *)
Lemma for_each_remove_run l cs : ∀ s xs,
  App.heap s !! l = Some xs →
  ∃ s', App.for_each cs (fun c => App.list_remove l c) s
        = (match remove_each cs xs with
           | Some _ => Ok ()
           | None => Raise ValueError
           end, s')
      ∧ (∀ ys, remove_each cs xs = Some ys → App.heap s' !! l = Some ys)
      ∧ same_but l s s'.
Proof.
  induction cs as [|c cs IH]; intros s xs Hl; simpl.
  - exists s. split; [done|]. split; [congruence|apply same_but_refl].
  - destruct (list_remove_run l c s xs Hl) as (s1 & Hrun & Hl1 & Hsame).
    unfold mbind, App.M_bind. rewrite Hrun.
    case_decide as Hc.
    + destruct (IH s1 _ Hl1) as (s2 & Hrun2 & Hl2 & Hsame2).
      exists s2. split; [done|]. split; [done|].
      by eapply same_but_trans.
    + exists s1. split; [done|]. split; [done|done].
Qed.

(** Lines 113-121: the outcome, what was printed, and what stayed. *)
Lemma exclude_unselected_run cs t s ac :
  App.heap s !! App.all_countries s = Some ac →
  ∃ s', App.exclude_unselected cs t s
        = (match remove_each cs ac with
           | Some cf => Ok (App.drop_countries cf t)
           | None => Raise ValueError
           end, s')
      ∧ App.df_pivot s' = App.df_pivot s
      ∧ App.all_countries s' = App.all_countries s
      ∧ App.stdout s' = App.stdout s ++ [ac]
      ∧ ∀ l, l ∈ dom (App.heap s) → App.heap s' !! l = App.heap s !! l.
Proof.
  intros Hac. unfold App.exclude_unselected.
  unfold mbind, App.M_bind, App.get_all_countries, App.list_copy.
  rewrite Hac.
  set (l' := fresh (dom (App.heap s))).
  assert (Hfresh : l' ∉ dom (App.heap s)) by apply is_fresh.
  set (s1 := App.set_heap _ s).
  assert (Hl1 : App.heap s1 !! l' = Some ac) by apply lookup_insert_eq.
  unfold App.print_list. rewrite Hl1.
  set (s2 := App.set_stdout _ s1).
  destruct (for_each_remove_run l' cs s2 ac Hl1)
    as (s3 & Hrun & Hl3 & (Hdf & Hall & Hout & Hheap)).
  rewrite Hrun.
  assert (Hkeep : ∀ l, l ∈ dom (App.heap s) → App.heap s3 !! l = App.heap s !! l).
  { intros l Hl. assert (l ≠ l') by (intros ->; done).
    rewrite Hheap by done. simpl. by rewrite lookup_insert_ne. }
  destruct (remove_each cs ac) as [cf|] eqn:Hcf.
  - unfold App.list_items. rewrite (Hl3 cf eq_refl).
    exists s3. by repeat split.
  - exists s3. by repeat split.
Qed.

(** Lines 108-139, for a state whose [all_countries] is a list object. *)
Lemma update_figure_run yr cs s ac :
  App.heap s !! App.all_countries s = Some ac →
  ∃ s', App.update_figure yr cs s
        = (match remove_each cs ac with
           | Some cf =>
               Ok (App.drop_countries cf
                     (filter (fun r => year r <= yr.2)
                        (filter (fun r => yr.1 <= year r) (App.df_pivot s))))
           | None => Raise ValueError
           end, s')
      ∧ App.df_pivot s' = App.df_pivot s
      ∧ App.all_countries s' = App.all_countries s
      ∧ App.stdout s' = App.stdout s ++ [ac]
      ∧ ∀ l, l ∈ dom (App.heap s) → App.heap s' !! l = App.heap s !! l.
Proof.
  intros Hac. unfold App.update_figure.
  unfold mbind at 1. unfold App.M_bind, App.get_df_pivot.
  by apply exclude_unselected_run.
Qed.

(** ** The filter engine *)

Lemma startup_sample : App.startup sample_df = Ok sample_state.
Proof. vm_compute. reflexivity. Qed.

Lemma state_ok_heap s :
  state_ok s → App.heap s !! App.all_countries s = Some (country_set s).
Proof. intros [[ac Hac] _]. unfold country_set. by rewrite Hac. Qed.

(** Excluding the names left after the removals keeps exactly the records
    of the selected countries, when every record's country is listed. *)
Lemma exclusion_is_inclusion ac cs (t : list LongRecord) :
  NoDup ac → NoDup cs → cs ⊆ ac →
  Forall (fun r => country r ∈ ac) t →
  ∃ cf, remove_each cs ac = Some cf
      ∧ App.drop_countries cf t = inclusion_filter cs t.
Proof.
  intros Hac Hcs Hsub Ht.
  eexists. split; [by apply remove_each_difference|].
  rewrite drop_countries_filter. apply filter_ext_in.
  intros r Hr. rewrite list_elem_of_filter.
  rewrite Forall_forall in Ht. specialize (Ht r Hr).
  split.
  - intros Hn. destruct (decide (country r ∈ cs)); [done|]. destruct Hn. done.
  - intros Hin [Hn _]. done.
Qed.

(** The callback's outcome on a valid selection. *)
Lemma update_figure_result s yr cs :
  state_ok s → NoDup cs → cs ⊆ country_set s →
  (App.update_figure yr cs s).1 = Ok (filter (passes yr cs) (App.df_pivot s)).
Proof.
  intros Hok Hcs Hsub.
  destruct (update_figure_run yr cs s _ (state_ok_heap s Hok)) as (s' & -> & _).
  destruct Hok as (_ & Hnd & Hall). simpl.
  destruct (exclusion_is_inclusion (country_set s) cs
    (filter (fun r => year r <= yr.2)
       (filter (fun r => yr.1 <= year r) (App.df_pivot s)))) as (cf & -> & ->);
    [done..| |].
  - rewrite Forall_forall in Hall |- *. intros r Hr.
    apply Hall. by apply list_elem_of_filter in Hr as [_ [_ ?]%list_elem_of_filter].
  - f_equal. unfold inclusion_filter. rewrite !list_filter_filter.
    apply list_filter_iff. intros r. unfold passes. tauto.
Qed.

(** C1.  On a valid selection (distinct names, all of them countries of the
    dataset, low <= high) the callback returns exactly the records of the
    long table whose year lies in the range and whose country is selected,
    in the table's order, and no others. *)
Theorem update_figure_selects s yr cs :
  state_ok s → NoDup cs → cs ⊆ country_set s → yr.1 <= yr.2 →
  ∃ res, (App.update_figure yr cs s).1 = Ok res
       ∧ res = filter (passes yr cs) (App.df_pivot s)
       ∧ ∀ r, r ∈ res ↔
              r ∈ App.df_pivot s ∧ yr.1 <= year r <= yr.2 ∧ country r ∈ cs.
Proof.
  intros Hok Hcs Hsub _. eexists. split; [by apply update_figure_result|].
  split; [done|]. intros r. rewrite list_elem_of_filter. unfold passes. tauto.
Qed.

Lemma update_figure_selects_witness :
  ∃ res, (App.update_figure (1800, 1825) ["USA"] sample_state).1 = Ok res
       ∧ res = filter (passes (1800, 1825) ["USA"]) (App.df_pivot sample_state)
       ∧ ∀ r, r ∈ res ↔
              r ∈ App.df_pivot sample_state
              ∧ (1800, 1825).1 <= year r <= (1800, 1825).2
              ∧ country r ∈ ["USA"].
Proof.
  apply (update_figure_selects sample_state (1800, 1825) ["USA"]);
    [by_evaluation | by_evaluation | by_evaluation | simpl; lia].
Defined.

(** The scenario of the specification: USA over 1800-1825 out of
    USA and France over 1800, 1825, 1850. *)
Example update_figure_scenario :
  (App.update_figure (1800, 1825) ["USA"] sample_state).1
  = Ok [ {| year := 1800; country := "USA"; gdp := 2100 |};
         {| year := 1825; country := "USA"; gdp := 2500 |} ].
Proof. vm_compute. reflexivity. Qed.

(** C6.  Lines 113-121 exclude the countries left in the copied list once
    the selected ones are removed; on a duplicate-free selection of known
    countries, and a frame whose countries are all listed, that yields the
    same frame as keeping the records of the selected countries. *)
Theorem exclusion_refines_inclusion s cs (t : list LongRecord) :
  state_ok s → NoDup cs → cs ⊆ country_set s →
  Forall (fun r => country r ∈ country_set s) t →
  (App.exclude_unselected cs t s).1 = Ok (inclusion_filter cs t).
Proof.
  intros Hok Hcs Hsub Ht.
  destruct (exclude_unselected_run cs t s _ (state_ok_heap s Hok)) as (s' & -> & _).
  destruct Hok as (_ & Hnd & _). simpl.
  by destruct (exclusion_is_inclusion (country_set s) cs t) as (cf & -> & ->).
Qed.

Lemma exclusion_refines_inclusion_witness :
  (App.exclude_unselected ["France"] (App.df_pivot sample_state) sample_state).1
  = Ok (inclusion_filter ["France"] (App.df_pivot sample_state)).
Proof.
  apply (exclusion_refines_inclusion sample_state ["France"]); by_evaluation.
Defined.

(** C7.  Widening the year range and adding countries never removes a
    record: both calls return, and the first result is a subsequence of the
    second. *)
Theorem update_figure_monotone s yr1 cs1 yr2 cs2 :
  state_ok s → NoDup cs1 → NoDup cs2 → cs2 ⊆ country_set s →
  cs1 ⊆ cs2 → yr2.1 <= yr1.1 → yr1.2 <= yr2.2 →
  ∃ res1 res2,
    (App.update_figure yr1 cs1 s).1 = Ok res1
    ∧ (App.update_figure yr2 cs2 s).1 = Ok res2
    ∧ (∀ r, r ∈ res1 → r ∈ res2)
    ∧ res1 `sublist_of` res2.
Proof.
  intros Hok Hcs1 Hcs2 Hsub2 Hsub Hlo Hhi.
  exists (filter (passes yr1 cs1) (App.df_pivot s)),
         (filter (passes yr2 cs2) (App.df_pivot s)).
  split; [apply update_figure_result; [done..|by etrans]|].
  split; [by apply update_figure_result|].
  assert (Himp : ∀ r, passes yr1 cs1 r → passes yr2 cs2 r).
  { intros r [Hy Hc]. split; [lia|by apply Hsub]. }
  split.
  - intros r. rewrite !list_elem_of_filter. intros [Hp Hin]. split; [by apply Himp|done].
  - rewrite <- (list_filter_filter_l (passes yr1 cs1) (passes yr2 cs2)) by done.
    apply sublist_filter.
Qed.

Lemma update_figure_monotone_witness :
  ∃ res1 res2,
    (App.update_figure (1825, 1825) ["USA"] sample_state).1 = Ok res1
    ∧ (App.update_figure (1800, 1850) ["France"; "USA"] sample_state).1 = Ok res2
    ∧ (∀ r, r ∈ res1 → r ∈ res2)
    ∧ res1 `sublist_of` res2.
Proof.
  apply (update_figure_monotone sample_state (1825, 1825) ["USA"]
           (1800, 1850) ["France"; "USA"]);
    [by_evaluation | by_evaluation | by_evaluation | by_evaluation
    | by_evaluation | simpl; lia | simpl; lia].
Defined.

(** C4, as the code has it.  Crossed bounds raise nothing: the two year
    comparisons cannot both hold, so a valid country selection yields the
    empty frame, and the globals stay as they were. *)
Theorem update_figure_crossed_range s yr cs :
  state_ok s → NoDup cs → cs ⊆ country_set s → yr.2 < yr.1 →
  (App.update_figure yr cs s).1 = Ok []
  ∧ App.df_pivot (App.update_figure yr cs s).2 = App.df_pivot s
  ∧ country_set (App.update_figure yr cs s).2 = country_set s.
Proof.
  intros Hok Hcs Hsub Hlt. split.
  - rewrite update_figure_result by done. f_equal.
    induction (App.df_pivot s) as [|r t IH]; [done|].
    rewrite filter_cons_False; [done|]. unfold passes. lia.
  - pose proof (state_ok_heap s Hok) as Hac.
    destruct (update_figure_run yr cs s _ Hac) as (s' & -> & Hdf & Hall & _ & Hheap).
    simpl. split; [done|]. unfold country_set. rewrite Hall, Hheap; [done|].
    apply elem_of_dom. by eexists.
Qed.

Lemma update_figure_crossed_range_witness :
  (App.update_figure (1850, 1800) ["USA"] sample_state).1 = Ok []
  ∧ App.df_pivot (App.update_figure (1850, 1800) ["USA"] sample_state).2
    = App.df_pivot sample_state
  ∧ country_set (App.update_figure (1850, 1800) ["USA"] sample_state).2
    = country_set sample_state.
Proof.
  apply (update_figure_crossed_range sample_state (1850, 1800) ["USA"]);
    [by_evaluation | by_evaluation | by_evaluation | simpl; lia].
Defined.

(** C4, as stated, fails: with the bounds crossed (1850 > 1800, both years
    of the dataset) the callback raises no exception; it returns the empty
    frame. *)
Lemma crossed_range_is_not_rejected :
  (App.update_figure (1850, 1800) ["USA"] sample_state).1 = Ok []
  ∧ ∀ e, (App.update_figure (1850, 1800) ["USA"] sample_state).1 ≠ Raise e.
Proof. split; [vm_compute; reflexivity|]. intros e. vm_compute. discriminate. Qed.

(** C5.  For a selection of distinct names the callback raises (the
    [ValueError] of [list.remove]) exactly when some name is not a country
    of the dataset; a call that raises leaves the long table and the country
    list as they were; and the empty selection is accepted and yields the
    empty frame. *)
Theorem update_figure_unknown_country s yr cs :
  state_ok s → NoDup cs →
  ((∃ e, (App.update_figure yr cs s).1 = Raise e)
     ↔ ∃ c, c ∈ cs ∧ c ∉ country_set s)
  ∧ (∀ e, (App.update_figure yr cs s).1 = Raise e → e = ValueError)
  ∧ ((∃ e, (App.update_figure yr cs s).1 = Raise e)
     → App.df_pivot (App.update_figure yr cs s).2 = App.df_pivot s
       ∧ country_set (App.update_figure yr cs s).2 = country_set s)
  ∧ (App.update_figure yr [] s).1 = Ok [].
Proof.
  intros Hok Hcs.
  pose proof (state_ok_heap s Hok) as Hac.
  split; [|split; [|split]].
  - destruct (decide (cs ⊆ country_set s)) as [Hsub|Hnsub].
    + rewrite update_figure_result by done. split; [by intros [e ?]|].
      intros (c & Hc & Hn). destruct Hn. by apply Hsub.
    + destruct (update_figure_run yr cs s _ Hac) as (s' & -> & _). simpl.
      destruct (remove_each cs (country_set s)) as [cf|] eqn:Hcf.
      * destruct Hnsub. destruct Hok as (_ & Hnd & _).
        by destruct (remove_each_Some _ _ _ Hnd Hcf).
      * split; [|by eexists]. intros _.
        assert (Hnall : ¬ Forall (fun c => c ∈ country_set s) cs).
        { rewrite Forall_forall. intros Hall. apply Hnsub. exact Hall. }
        apply (not_Forall_Exists _), Exists_exists in Hnall.
        destruct Hnall as (c & Hc & Hn). by exists c.
  - intros e. destruct (update_figure_run yr cs s _ Hac) as (s' & -> & _). simpl.
    destruct (remove_each cs (country_set s)); congruence.
  - intros _.
    destruct (update_figure_run yr cs s _ Hac) as (s' & -> & Hdf & Hall & _ & Hheap).
    simpl. split; [done|]. unfold country_set. rewrite Hall, Hheap; [done|].
    apply elem_of_dom. by eexists.
  - rewrite update_figure_result; [|done|constructor|intros c Hc; by apply elem_of_nil in Hc].
    f_equal. induction (App.df_pivot s) as [|r t IH]; [done|].
    rewrite filter_cons_False; [done|]. unfold passes.
    intros [_ Hin]. by apply elem_of_nil in Hin.
Qed.

Lemma update_figure_unknown_country_witness :
  ((∃ e, (App.update_figure (1800, 1850) ["Atlantis"] sample_state).1 = Raise e)
     ↔ ∃ c, c ∈ ["Atlantis"] ∧ c ∉ country_set sample_state)
  ∧ (∀ e, (App.update_figure (1800, 1850) ["Atlantis"] sample_state).1 = Raise e
          → e = ValueError)
  ∧ ((∃ e, (App.update_figure (1800, 1850) ["Atlantis"] sample_state).1 = Raise e)
     → App.df_pivot (App.update_figure (1800, 1850) ["Atlantis"] sample_state).2
       = App.df_pivot sample_state
       ∧ country_set (App.update_figure (1800, 1850) ["Atlantis"] sample_state).2
         = country_set sample_state)
  ∧ (App.update_figure (1800, 1850) [] sample_state).1 = Ok [].
Proof.
  apply (update_figure_unknown_country sample_state (1800, 1850) ["Atlantis"]);
    by_evaluation.
Defined.

(** The scenario of the specification: an unknown country is refused. *)
Example update_figure_atlantis :
  (App.update_figure (1800, 1850) ["Atlantis"] sample_state).1 = Raise ValueError.
Proof. vm_compute. reflexivity. Qed.

(** A name given twice is refused as well: its second removal finds
    nothing to remove. *)
Example update_figure_repeated_name :
  (App.update_figure (1800, 1850) ["USA"; "USA"] sample_state).1 = Raise ValueError.
Proof. vm_compute. reflexivity. Qed.

(** C10.  Whatever its arguments, the callback leaves [df_pivot] as it was,
    [all_countries] referring to the same list object, every list object
    that existed before the call with the items it had, and so the country
    list unchanged: the removals of lines 117-118 act on the copy made by
    line 114. *)
Theorem update_figure_frame yr cs s :
  App.df_pivot (App.update_figure yr cs s).2 = App.df_pivot s
  ∧ App.all_countries (App.update_figure yr cs s).2 = App.all_countries s
  ∧ (∀ l, l ∈ dom (App.heap s) →
          App.heap (App.update_figure yr cs s).2 !! l = App.heap s !! l)
  ∧ country_set (App.update_figure yr cs s).2 = country_set s.
Proof.
  destruct (App.heap s !! App.all_countries s) as [ac|] eqn:Hac.
  - destruct (update_figure_run yr cs s ac Hac) as (s' & -> & Hdf & Hall & _ & Hheap).
    simpl. repeat split; try done.
    unfold country_set. rewrite Hall, Hheap; [done|].
    apply elem_of_dom. by eexists.
  - unfold App.update_figure, App.exclude_unselected.
    unfold mbind, App.M_bind, App.get_df_pivot, App.get_all_countries, App.list_copy.
    rewrite Hac. by repeat split.
Qed.

(** The copy is what the loop mutates: after a call on [sample_state] the
    shared list still holds both countries, the new list object has lost the
    selected one, and the full list was printed. *)
Example update_figure_mutates_the_copy :
  map_to_list (App.heap (App.update_figure (1800, 1850) ["USA"] sample_state).2)
  = [(1%nat, ["France"]); (0%nat, ["USA"; "France"])]
  ∧ App.stdout (App.update_figure (1800, 1850) ["USA"] sample_state).2
    = [["USA"; "France"]].
Proof. split; vm_compute; reflexivity. Qed.

(** ** The reshaper *)

Lemma is_Ok_from_Ok {A : Type} (d : A) (x : py A) : is_Ok x → x = Ok (from_Ok d x).
Proof. by destruct x. Qed.

Lemma py_map_Ok {A B : Type} (f : A -> py B) (g : A -> B) (l : list A) :
  Forall (fun x => f x = Ok (g x)) l → py_map f l = Ok (g <$> l).
Proof. induction 1 as [|x l Hx _ IH]; [done|]. simpl. by rewrite Hx, IH. Qed.

(** With unique names, melting column by column visits the rows of [df]
    one after the other. *)
Lemma molten_rows years (rs : list (string * list string)) :
  NoDup rs.*1 → Reshape.molten years rs rs.*1 = rs ≫= melt_row years.
Proof.
  unfold Reshape.molten.
  assert (Hskip : ∀ c (l : list (string * list string)), c ∉ l.*1 →
            l ≫= Reshape.melt_column years c = []).
  { intros c l. induction l as [|x l IH]; [done|].
    rewrite fmap_cons, not_elem_of_cons. intros [Hne Hc].
    rewrite bind_cons, IH by done. unfold Reshape.melt_column.
    by rewrite decide_False. }
  induction rs as [|row rs IH]; intros Hnd; [done|].
  rewrite fmap_cons in Hnd. apply NoDup_cons in Hnd as [Hrow Hnd].
  rewrite fmap_cons, !bind_cons. f_equal.
  - rewrite Hskip by done. unfold Reshape.melt_column at 1.
    rewrite decide_True by done. by rewrite app_nil_r.
  - rewrite <- IH by done. apply Forall_bind_ext, Forall_forall.
    intros c Hc. rewrite bind_cons. unfold Reshape.melt_column at 1.
    rewrite decide_False; [done|]. by intros <-.
Qed.

Lemma no_clash_names df c :
  no_clash df → c ∈ (rows df).*1 → c ≠ "index" ∧ c ≠ "year" ∧ c ≠ "gdp".
Proof.
  unfold no_clash. rewrite Forall_forall. intros Hno Hc.
  specialize (Hno c Hc). unfold own_columns in Hno.
  rewrite !not_elem_of_cons in Hno. tauto.
Qed.

Lemma rename_index_id (frame : list (string * list string)) :
  Forall (fun col => col.1 ≠ "index") frame → Reshape.rename_index frame = frame.
Proof.
  intros Hall. unfold Reshape.rename_index.
  etrans; [|apply list_fmap_id]. apply Forall_fmap_ext_1.
  eapply Forall_impl; [exact Hall|]. intros [c v] Hc. simpl in *.
  by rewrite decide_False.
Qed.

(** Without a country named like one of the reshaper's own columns,
    line 31 finds the year labels under [year] beside the countries'
    columns. *)
Lemma df_tp_no_clash df :
  no_clash df → Reshape.df_tp df = Ok (("year", year_columns df) :: rows df).
Proof.
  intros Hno. unfold Reshape.df_tp, Reshape.reset_index, Reshape.transpose. simpl.
  rewrite decide_False by (intros Hin; by destruct (no_clash_names df _ Hno Hin)).
  change (Ok (Reshape.rename_index (("index", year_columns df) :: rows df))
          = Ok (("year", year_columns df) :: rows df)).
  change (Reshape.rename_index (("index", year_columns df) :: rows df))
    with (("year", year_columns df) :: Reshape.rename_index (rows df)).
  do 2 f_equal. apply rename_index_id, Forall_forall. intros col Hcol.
  apply (no_clash_names df col.1 Hno). by apply list_elem_of_fmap_2.
Qed.

Lemma filter_fst_ne (rs : list (string * list string)) (x : string) :
  x ∉ rs.*1 →
  filter (fun col => col.1 = x) rs = [] ∧ filter (fun col => col.1 ≠ x) rs = rs.
Proof.
  intros Hx. split.
  - apply filter_none. intros col Hcol Heq. apply Hx. rewrite <- Heq.
    by apply list_elem_of_fmap_2.
  - apply filter_all. intros col Hcol Heq. apply Hx. rewrite <- Heq.
    by apply list_elem_of_fmap_2.
Qed.

Lemma melted_no_clash df :
  no_clash df →
  Reshape.melted df
  = Ok (Reshape.molten (year_columns df) (rows df) (Reshape.all_countries df)).
Proof.
  intros Hno. unfold Reshape.melted. rewrite df_tp_no_clash by done. simpl.
  assert (Hyear : "year" ∉ (rows df).*1).
  { intros Hin. by destruct (no_clash_names df _ Hno Hin) as (_ & ? & _). }
  unfold Reshape.melt. rewrite fmap_cons. simpl.
  rewrite decide_False.
  2:{ intros [?|Hin]%elem_of_cons; [done|].
      by destruct (no_clash_names df _ Hno Hin) as (_ & _ & ?). }
  rewrite decide_True.
  2:{ constructor; [by left|]. apply Forall_forall. intros c Hc. right.
      unfold Reshape.all_countries in Hc. by rewrite elem_of_unique in Hc. }
  rewrite !filter_cons. simpl.
  destruct (filter_fst_ne (rows df) "year" Hyear) as [-> ->]. done.
Qed.

(** A country named like one of the reshaper's own columns makes
    lines 23-31 raise. *)
Lemma melted_clash df : ¬ no_clash df → is_Raise (Reshape.melted df).
Proof.
  intros Hclash.
  assert (Hsome : "index" ∈ (rows df).*1 ∨ "year" ∈ (rows df).*1
                  ∨ "gdp" ∈ (rows df).*1).
  { destruct (decide ("index" ∈ (rows df).*1)); [by left|].
    destruct (decide ("year" ∈ (rows df).*1)); [right; by left|].
    destruct (decide ("gdp" ∈ (rows df).*1)); [right; by right|].
    destruct Hclash. apply Forall_forall. intros c Hc. unfold own_columns.
    rewrite !not_elem_of_cons. split_and!; try (by intros ->).
    apply not_elem_of_nil. }
  unfold Reshape.melted, Reshape.df_tp, Reshape.reset_index, Reshape.transpose.
  simpl.
  destruct (decide ("index" ∈ (rows df).*1)) as [Hindex|Hindex].
  - destruct (decide ("level_0" ∈ (rows df).*1)); [done|]. simpl.
    unfold Reshape.melt. case_decide; [done|].
    rewrite decide_False; [done|].
    intros Hall. apply Forall_cons in Hall as [_ Hall].
    rewrite Forall_forall in Hall.
    specialize (Hall "index"). unfold Reshape.all_countries in Hall.
    rewrite elem_of_unique in Hall.
    specialize (Hall Hindex).
    apply list_elem_of_fmap in Hall as (col & Hname & Hcol).
    apply elem_of_cons in Hcol as [->|Hcol]; [done|].
    unfold Reshape.rename_index in Hcol.
    apply list_elem_of_fmap in Hcol as (col' & -> & _).
    simpl in Hname. by case_decide.
  - change (is_Raise (Reshape.melt
              (("year", year_columns df) :: Reshape.rename_index (rows df))
              "year" (Reshape.all_countries df) "gdp")).
    rewrite rename_index_id.
    2:{ apply Forall_forall. intros col Hcol Heq.
        apply Hindex. rewrite <- Heq. by apply list_elem_of_fmap_2. }
    unfold Reshape.melt. case_decide; [done|]. case_decide; [|done].
    destruct Hsome as [?|[Hyear|Hgdp]]; [done| |].
    + rewrite filter_cons_True by done.
      apply list_elem_of_fmap in Hyear as (col & Hname & Hcol).
      destruct (filter (fun col => col.1 = "year") (rows df)) as [|x l] eqn:Hf;
        [|done].
      assert (Hin : col ∈ filter (fun col => col.1 = "year") (rows df))
        by by apply list_elem_of_filter.
      rewrite Hf in Hin. by apply elem_of_nil in Hin.
    + exfalso. apply H. rewrite fmap_cons. by right.
Qed.

Lemma melt_wide df :
  NoDup (rows df).*1 → no_clash df →
  Reshape.melted df = Ok (rows df ≫= melt_row (year_columns df)).
Proof.
  intros Hnd Hno. rewrite melted_no_clash by done. f_equal.
  unfold Reshape.all_countries. rewrite unique_NoDup by done.
  by apply molten_rows.
Qed.

Lemma melt_row_ok `{Scope} df row :
  Forall (fun y => is_Ok (Num.py_int y)) (year_columns df) →
  Forall (fun cell => is_Ok (parse_gdp cell)) row.2 →
  Forall (fun m => is_Ok (parse_gdp (Reshape.m_gdp m))
                   ∧ is_Ok (Num.py_int (Reshape.m_year m)))
         (melt_row (year_columns df) row).
Proof.
  intros Hy Hc. unfold melt_row. apply Forall_fmap, Forall_forall.
  intros [y v] Hyv. simpl. rewrite Forall_forall in Hy, Hc. split.
  - apply Hc. by eapply elem_of_zip_r.
  - apply Hy. by eapply elem_of_zip_l.
Qed.

(** On a well-formed table lines 31-35 succeed, and give one record per
    molten row. *)
Lemma df_pivot_wide `{Scope} df :
  wide_ok df → no_clash df →
  Reshape.df_pivot df
  = Ok (long_of_molten <$> (rows df ≫= melt_row (year_columns df))).
Proof.
  intros (Hnd & Hrect & Hys & _ & Hcells) Hno.
  unfold Reshape.df_pivot. rewrite decide_True, melt_wide by done.
  set (M := rows df ≫= melt_row (year_columns df)).
  assert (HM : Forall (fun m => is_Ok (parse_gdp (Reshape.m_gdp m))
                                ∧ is_Ok (Num.py_int (Reshape.m_year m))) M).
  { apply Forall_bind. rewrite Forall_forall in Hcells |- *.
    intros row Hrow. apply melt_row_ok; [done|]. by apply Hcells. }
  change (Ok M ≫= ?f) with (f M). cbv beta.
  rewrite (py_map_Ok Reshape.convert_gdp
             (fun m => (Reshape.m_year m, Reshape.m_country m,
                        from_Ok 0 (parse_gdp (Reshape.m_gdp m))))).
  - simpl. rewrite (py_map_Ok Reshape.convert_year
             (fun r => {| year := from_Ok 0 (Num.py_int r.1.1);
                          country := r.1.2; gdp := r.2 |})).
    + by rewrite <- list_fmap_compose.
    + apply Forall_fmap. eapply Forall_impl; [exact HM|].
      intros m [_ Hy]. unfold Reshape.convert_year. simpl.
      by rewrite (is_Ok_from_Ok 0 _ Hy) at 1.
  - eapply Forall_impl; [exact HM|].
    intros m [Hg _]. unfold Reshape.convert_gdp.
    by rewrite (is_Ok_from_Ok 0 _ Hg) at 1.
Qed.

(** The reshaper only succeeds when no country is named like one of its
    own columns. *)
Lemma df_pivot_no_clash `{Scope} df t : Reshape.df_pivot df = Ok t → no_clash df.
Proof.
  intros Hok. destruct (decide (no_clash df)) as [|Hclash]; [done|].
  apply melted_clash in Hclash. unfold Reshape.df_pivot in Hok.
  case_decide; [|done]. by destruct (Reshape.melted df).
Qed.

Lemma df_pivot_clash `{Scope} df :
  rectangular df → ¬ no_clash df → is_Raise (Reshape.df_pivot df).
Proof.
  intros Hrect Hclash. apply melted_clash in Hclash. unfold Reshape.df_pivot.
  rewrite decide_True by done. by destruct (Reshape.melted df).
Qed.

Lemma length_melt_rows years (rs : list (string * list string)) :
  Forall (fun row => length row.2 = length years) rs →
  length (rs ≫= melt_row years) = (length rs * length years)%nat.
Proof.
  induction 1 as [|row rs Hrow _ IH]; [done|].
  rewrite bind_cons, length_app, IH. unfold melt_row.
  rewrite length_fmap, length_zip, Hrow. simpl. lia.
Qed.

Lemma filter_key_absent {A K : Type} `{EqDecision K} (k : A -> K)
    (l : list A) (v : K) :
  v ∉ k <$> l → filter (fun z => k z = v) l = [].
Proof.
  induction l as [|b l IH]; [done|].
  rewrite fmap_cons. intros [Hne Hv]%not_elem_of_cons.
  rewrite filter_cons_False by congruence. by apply IH.
Qed.

(** In a list without repeated keys, the elements with the key of a
    member are that member alone. *)
Lemma filter_key_singleton {A K : Type} `{EqDecision K} (k : A -> K)
    (l : list A) (x : A) :
  NoDup (k <$> l) → x ∈ l → filter (fun z => k z = k x) l = [x].
Proof.
  induction l as [|a l IH]; intros Hnd Hx; [by apply elem_of_nil in Hx|].
  rewrite fmap_cons in Hnd. apply NoDup_cons in Hnd as [Ha Hnd].
  rewrite filter_cons. apply elem_of_cons in Hx as [->|Hx].
  - rewrite decide_True by done. f_equal. by apply filter_key_absent.
  - rewrite decide_False; [by apply IH|].
    intros Heq. apply Ha. rewrite Heq. by apply list_elem_of_fmap_2.
Qed.

Lemma years_distinct (years : list string) :
  Forall (fun y => is_Ok (Num.py_int y)) years →
  NoDup (Num.py_int <$> years) →
  NoDup ((fun y => from_Ok 0 (Num.py_int y)) <$> years).
Proof.
  intros Hok Hnd.
  apply (NoDup_fmap_1 Ok). rewrite <- list_fmap_compose.
  erewrite Forall_fmap_ext_1; [exact Hnd|].
  eapply Forall_impl; [exact Hok|]. intros y Hy. simpl.
  by rewrite <- is_Ok_from_Ok.
Qed.

Lemma key_melt_row `{Scope} years row :
  length row.2 = length years →
  key <$> (long_of_molten <$> melt_row years row)
  = (fun y => (row.1, from_Ok 0 (Num.py_int y))) <$> years.
Proof.
  intros Hlen. unfold melt_row. rewrite <- !list_fmap_compose.
  rewrite <- (fst_zip years row.2) at 2 by lia.
  rewrite <- list_fmap_compose. done.
Qed.

Lemma fmap_bind_list {A B C : Type} (f : B -> C) (g : A -> list B) (l : list A) :
  f <$> (l ≫= g) = l ≫= (fun x => f <$> g x).
Proof.
  induction l as [|x l IH]; [done|].
  by rewrite !bind_cons, fmap_app, IH.
Qed.

Lemma NoDup_fst_inj {A B : Type} (l : list (A * B)) x1 x2 :
  NoDup l.*1 → x1 ∈ l → x2 ∈ l → x1.1 = x2.1 → x1 = x2.
Proof.
  induction l as [|a l IH]; intros Hnd H1 H2 Heq; [by apply elem_of_nil in H1|].
  rewrite fmap_cons in Hnd. apply NoDup_cons in Hnd as [Ha Hnd].
  apply elem_of_cons in H1 as [->|H1]; apply elem_of_cons in H2 as [->|H2].
  - done.
  - destruct Ha. rewrite Heq. by apply list_elem_of_fmap_2.
  - destruct Ha. rewrite <- Heq. by apply list_elem_of_fmap_2.
  - by apply IH.
Qed.

(** The long table of a well-formed wide table repeats no (country, year)
    pair. *)
Lemma NoDup_keys `{Scope} df :
  wide_ok df →
  NoDup (key <$> (long_of_molten <$> (rows df ≫= melt_row (year_columns df)))).
Proof.
  intros (Hnd & Hlen & Hys & Hyd & _). unfold rectangular in Hlen.
  rewrite <- list_fmap_compose, fmap_bind_list.
  rewrite Forall_forall in Hlen.
  assert (Hblock : ∀ row, row ∈ rows df →
            (key ∘ long_of_molten) <$> melt_row (year_columns df) row
            = pair row.1 <$> ((fun y => from_Ok 0 (Num.py_int y)) <$> year_columns df)).
  { intros row Hrow. rewrite list_fmap_compose, key_melt_row by by apply Hlen.
    by rewrite <- list_fmap_compose. }
  apply NoDup_bind.
  - intros x1 x2 y Hx1 Hx2. rewrite !Hblock by done.
    intros (y1 & -> & _)%list_elem_of_fmap (y2 & [= Hc _] & _)%list_elem_of_fmap.
    by eapply NoDup_fst_inj.
  - intros row Hrow. rewrite Hblock by done.
    apply NoDup_fmap_2; [apply _|]. by apply years_distinct.
  - by eapply NoDup_fmap_1.
Qed.

(** C2, as the code has it.  For a well-formed wide table (unique country
    names, a cell under every year column in every row, year labels that
    denote distinct integers, cells that convert) in which no country is
    named [index], [year] or [gdp], the reshaping succeeds; the long table
    has one record per country and year, |countries| * |years| in all, no
    (country, year) pair twice; and for the cell of country [c] under the
    year label [yl], the records matching [c] and the year of [yl] are
    exactly one, whose gdp is the converted cell. *)
Theorem reshape_round_trip `{Scope} df :
  wide_ok df → no_clash df →
  ∃ t, Reshape.df_pivot df = Ok t
     ∧ length t
       = (length (Reshape.all_countries df) * length (year_columns df))%nat
     ∧ NoDup (key <$> t)
     ∧ ∀ c cells i yl cell,
         (c, cells) ∈ rows df →
         year_columns df !! i = Some yl →
         cells !! i = Some cell →
         ∃ y g, Num.py_int yl = Ok y
              ∧ parse_gdp cell = Ok g
              ∧ filter (fun r => country r = c ∧ year r = y) t
                = [ {| year := y; country := c; gdp := g |} ].
Proof.
  intros Hok Hno. pose proof Hok as (Hnd & Hlen & Hys & Hyd & Hcells).
  unfold rectangular in Hlen.
  eexists. split; [by apply df_pivot_wide|].
  split; [|split].
  - rewrite length_fmap, length_melt_rows by done.
    unfold Reshape.all_countries. by rewrite unique_NoDup, length_fmap.
  - by apply NoDup_keys.
  - intros c cells i yl cell Hrow Hyl Hcell.
    assert (Hy : is_Ok (Num.py_int yl)).
    { rewrite Forall_forall in Hys. apply Hys. by eapply list_elem_of_lookup_2. }
    assert (Hg : is_Ok (parse_gdp cell)).
    { rewrite Forall_forall in Hcells. specialize (Hcells _ Hrow).
      rewrite Forall_forall in Hcells. apply Hcells.
      by eapply list_elem_of_lookup_2. }
    exists (from_Ok 0 (Num.py_int yl)), (from_Ok 0 (parse_gdp cell)).
    split; [by apply is_Ok_from_Ok|]. split; [by apply is_Ok_from_Ok|].
    set (x := {| year := from_Ok 0 (Num.py_int yl); country := c;
                 gdp := from_Ok 0 (parse_gdp cell) |}).
    assert (Hin : x ∈ long_of_molten <$> (rows df ≫= melt_row (year_columns df))).
    { apply (list_elem_of_fmap_2' long_of_molten _
               {| Reshape.m_year := yl; Reshape.m_country := c;
                  Reshape.m_gdp := cell |}); [|done].
      apply list_elem_of_bind. exists (c, cells). split; [|done].
      unfold melt_row. simpl.
      apply (list_elem_of_fmap_2' _ _ (yl, cell)); [|done].
      apply list_elem_of_lookup. exists i. by apply lookup_zip_Some. }
    rewrite <- (filter_key_singleton key _ x (NoDup_keys df Hok) Hin).
    apply list_filter_iff. intros r. unfold key. simpl.
    split; [by intros [-> ->]|by intros [= -> ->]].
Qed.

Lemma reshape_round_trip_witness :
  ∃ t, Reshape.df_pivot sample_df = Ok t
     ∧ length t
       = (length (Reshape.all_countries sample_df)
          * length (year_columns sample_df))%nat
     ∧ NoDup (key <$> t)
     ∧ ∀ c cells i yl cell,
         (c, cells) ∈ rows sample_df →
         year_columns sample_df !! i = Some yl →
         cells !! i = Some cell →
         ∃ y g, Num.py_int yl = Ok y
              ∧ parse_gdp cell = Ok g
              ∧ filter (fun r => country r = c ∧ year r = y) t
                = [ {| year := y; country := c; gdp := g |} ].
Proof. apply (reshape_round_trip sample_df); by_evaluation. Defined.

(** C2, as stated, fails: [clash_df] has unique country names, a cell
    under each of its year columns in every row, and cells and year labels
    that convert, and the reshaping raises.  Lines 23-25 put the year
    labels in a column named [year] beside the countries' columns, so the
    country named [year] makes that name ambiguous at line 31. *)
Lemma country_named_year_aborts_reshape :
  wide_ok clash_df
  ∧ is_Raise (Reshape.df_pivot clash_df)
  ∧ ∀ t, Reshape.df_pivot clash_df ≠ Ok t.
Proof.
  split; [by_evaluation|]. split; [by_evaluation|].
  intros t Ht. by vm_compute in Ht.
Qed.

(** The long table of the sample: six records, country by country. *)
Example reshape_sample :
  Reshape.df_pivot sample_df = Ok (App.df_pivot sample_state).
Proof. vm_compute. reflexivity. Qed.

(** Without unique names the count differs: a country listed twice is
    molten twice, and its (country, year) pairs repeat. *)
Example reshape_repeated_country :
  Reshape.df_pivot {| year_columns := ["1800"];
                      rows := [("USA", ["1k"]); ("USA", ["2k"])] |}
  = Ok [ {| year := 1800; country := "USA"; gdp := 1000 |};
         {| year := 1800; country := "USA"; gdp := 2000 |} ].
Proof. vm_compute. reflexivity. Qed.

(** ** The cell parser *)





(** Up to 9999 an integer followed by "k" is read as a thousand times the
    integer, the binary64 product being exact there: checked case by case,
    by evaluation. *)
Lemma parse_gdp_integer_k `{Scope} (n : Z) :
  0 <= n < 10000 → parse_gdp (pretty n +:+ "k") = Ok (1000 * n).
Proof.
  intros Hn.
  assert (Hall : Forall (fun n => parse_gdp (pretty n +:+ "k") = Ok (1000 * n))
                        (seqZ 0 10000)) by by_evaluation.
  rewrite Forall_forall in Hall. apply Hall, elem_of_seqZ. lia.
Qed.







(** The product is a binary64 product and the conversion truncates it, so a
    number followed by "k" can come out one below the number times 1000:
    the float nearest to 32.3, times 1000, rounds to 32299.999999999996. *)
Example parse_gdp_truncates `{Scope} :
  parse_gdp "32.3k" = Ok 32299 ∧ parse_gdp "2.01k" = Ok 2009
  ∧ parse_gdp "0.9999k" = Ok 999 ∧ parse_gdp "10000k" = Ok 10000000.
Proof. split_and!; vm_compute; reflexivity. Qed.

(** ** Tick marks *)

Lemma unique_from_seen {A : Type} `{EqDecision A} (seen l : list A) :
  (∀ x, x ∈ l → x ∈ seen) → unique_from seen l = [].
Proof.
  induction l as [|a l IH]; intros Hl; [done|]. simpl.
  rewrite decide_True by (apply Hl; by left).
  apply IH. intros x Hx. apply Hl. by right.
Qed.

(** Values met before add nothing to the distinct values. *)
Lemma unique_from_app_seen {A : Type} `{EqDecision A} (l k : list A) : ∀ seen,
  (∀ x, x ∈ k → x ∈ l ∨ x ∈ seen) →
  unique_from seen (l ++ k) = unique_from seen l.
Proof.
  induction l as [|a l IH]; intros seen Hk; simpl.
  - apply unique_from_seen. intros x Hx.
    destruct (Hk x Hx) as [Hn|?]; [by apply elem_of_nil in Hn|done].
  - case_decide as Ha.
    + apply IH. intros x Hx.
      destruct (Hk x Hx) as [[->|?]%elem_of_cons|?]; auto.
    + f_equal. apply IH. intros x Hx. rewrite elem_of_cons.
      destruct (Hk x Hx) as [[->|?]%elem_of_cons|?]; auto.
Qed.

Lemma year_melt_row `{Scope} years row :
  length row.2 = length years →
  year <$> (long_of_molten <$> melt_row years row)
  = (fun y => from_Ok 0 (Num.py_int y)) <$> years.
Proof.
  intros Hlen. unfold melt_row. rewrite <- !list_fmap_compose.
  rewrite <- (fst_zip years row.2) at 2 by lia.
  rewrite <- list_fmap_compose. done.
Qed.

(** The distinct years of the long table of a well-formed, non-empty wide
    table are the years of its columns, in the order of the columns. *)
Lemma unique_years_wide `{Scope} df t :
  wide_ok df → rows df ≠ [] → Reshape.df_pivot df = Ok t →
  Reshape.unique_years t = year_values df.
Proof.
  intros Hok Hne Ht. pose proof (df_pivot_no_clash _ _ Ht) as Hno.
  rewrite df_pivot_wide in Ht by done.
  injection Ht as <-. destruct Hok as (_ & Hlen & Hys & Hyd & _).
  unfold rectangular in Hlen.
  unfold Reshape.unique_years, unique.
  destruct (rows df) as [|row rs]; [done|].
  apply Forall_cons in Hlen as [Hrow Hlen].
  rewrite bind_cons, !fmap_app, year_melt_row by done.
  fold (year_values df).
  rewrite unique_from_app_seen.
  - apply unique_NoDup. by apply years_distinct.
  - intros y Hy. left. rewrite <- list_fmap_compose, fmap_bind_list in Hy.
    apply list_elem_of_bind in Hy as (r & Hy & Hr).
    rewrite Forall_forall in Hlen.
    by rewrite list_fmap_compose, year_melt_row in Hy by by apply Hlen.
Qed.

(** C9, as the code has it.  The tick marks are the distinct years of the
    dataset divisible by 25; when the dataset's years are all the integers
    from [low] to [high] these are the years of [[low, high]] divisible by
    25, in particular 1800, 1825, ..., 1900 for 1800-1900 and none for
    1801-1824, the empty sequence being a result like any other. *)
Theorem mark_years_of_the_dataset `{Scope} :
  (∀ unique_years y,
     y ∈ Reshape.mark_years unique_years ↔ y ∈ unique_years ∧ y `mod` 25 = 0)
  ∧ (∀ unique_years, Reshape.mark_years unique_years `sublist_of` unique_years)
  ∧ (∀ df t, wide_ok df → rows df ≠ [] → Reshape.df_pivot df = Ok t →
       Reshape.mark_years (Reshape.unique_years t)
       = filter (fun y => y `mod` 25 = 0) (year_values df))
  ∧ (∀ low high y,
       y ∈ Reshape.mark_years (seqZ low (high - low + 1))
       ↔ low <= y <= high ∧ y `mod` 25 = 0)
  ∧ Reshape.mark_years (seqZ 1800 (1900 - 1800 + 1))
    = [1800; 1825; 1850; 1875; 1900]
  ∧ Reshape.mark_years (seqZ 1801 (1824 - 1801 + 1)) = [].
Proof.
  split; [|split; [|split; [|split; [|split]]]].
  - intros uy y. unfold Reshape.mark_years. rewrite list_elem_of_filter. tauto.
  - intros uy. apply sublist_filter.
  - intros df t Hok Hne Ht. by rewrite (unique_years_wide df t).
  - intros low high y. unfold Reshape.mark_years.
    rewrite list_elem_of_filter, elem_of_seqZ. split; intros [? ?]; split; (done || lia).
  - vm_compute. reflexivity.
  - vm_compute. reflexivity.
Qed.

(** C9, as stated, fails: the dataset [gap_df] spans 1800 to 1850, 1825
    lies in that range and is divisible by 25, and it is not a tick mark,
    because no column of the dataset is the year 1825. *)
Lemma mark_years_skip_absent_years :
  ∃ t, Reshape.df_pivot gap_df = Ok t
     ∧ Reshape.series_min (year <$> t) = Some 1800
     ∧ Reshape.series_max (year <$> t) = Some 1850
     ∧ Reshape.mark_years (Reshape.unique_years t) = [1800; 1850]
     ∧ ¬ (∀ y, 1800 <= y <= 1850 ∧ y `mod` 25 = 0
              → y ∈ Reshape.mark_years (Reshape.unique_years t)).
Proof.
  eexists. split; [vm_compute; reflexivity|].
  split; [vm_compute; reflexivity|]. split; [vm_compute; reflexivity|].
  split; [vm_compute; reflexivity|].
  intros Hall. specialize (Hall 1825).
  assert (Hin : 1825 ∈ [1800; 1850]).
  { apply Hall. split; [lia|reflexivity]. }
  apply elem_of_cons in Hin as [?|Hin]; [done|].
  apply elem_of_cons in Hin as [?|Hin]; [done|].
  by apply elem_of_nil in Hin.
Qed.

(** ** The order of the records *)

Lemma py_map_Forall2 {A B : Type} (f : A -> py B) (l : list A) (l' : list B) :
  py_map f l = Ok l' → Forall2 (fun x y => f x = Ok y) l l'.
Proof.
  revert l'. induction l as [|x l IH]; intros l'; simpl.
  - intros [= <-]. constructor.
  - destruct (f x) as [y| |] eqn:Hx; simpl; [|done..].
    destruct (py_map f l) as [ys| |]; simpl; [|done..].
    intros [= <-]. constructor; [done|]. by apply IH.
Qed.

(** Every molten row is of one of the countries line 31 asks for. *)
Lemma molten_countries years cols value_vars :
  Forall (fun x => Reshape.m_country x ∈ value_vars)
         (Reshape.molten years cols value_vars).
Proof.
  unfold Reshape.molten. apply Forall_bind, Forall_forall. intros c Hc.
  unfold compose. apply Forall_bind, Forall_forall. intros col _.
  unfold compose, Reshape.melt_column. case_decide; [|constructor].
  apply Forall_fmap, Forall_forall. by intros yv _.
Qed.

Lemma melted_countries df m :
  Reshape.melted df = Ok m →
  Forall (fun x => Reshape.m_country x ∈ Reshape.all_countries df) m.
Proof.
  unfold Reshape.melted. destruct (Reshape.df_tp df) as [frame| |]; [|done..].
  simpl. unfold Reshape.melt. repeat case_decide; try done.
  destruct (filter _ frame) as [|id_col [|]]; try done.
  intros [= <-]. apply molten_countries.
Qed.

(** [startup] establishes [state_ok], whatever the table it succeeds on. *)
Lemma startup_state_ok `{Scope} df s : App.startup df = Ok s → state_ok s.
Proof.
  unfold App.startup. destruct (Reshape.df_pivot df) as [t| |] eqn:Ht; simpl; [|done..].
  intros [= <-]. unfold state_ok, country_set. simpl.
  rewrite lookup_singleton_eq. simpl.
  split; [by eexists|]. split; [apply NoDup_unique|].
  unfold Reshape.df_pivot in Ht. case_decide; [|done].
  destruct (Reshape.melted df) as [m0| |] eqn:Hm0; simpl in Ht; [|done..].
  destruct (py_map Reshape.convert_gdp _) as [m| |] eqn:Hm; simpl in Ht; [|done..].
  apply py_map_Forall2 in Hm, Ht.
  pose proof (melted_countries df m0 Hm0) as Hmelt.
  assert (Hmid : Forall (fun r : string * string * Z =>
                           r.1.2 ∈ Reshape.all_countries df) m).
  { eapply Forall2_Forall_r; [exact Hm|].
    eapply Forall_impl; [exact Hmelt|].
    intros x Hx y. unfold Reshape.convert_gdp.
    destruct (parse_gdp _); simpl; [|done..]. by intros [= <-]. }
  eapply Forall2_Forall_r; [exact Ht|].
  eapply Forall_impl; [exact Hmid|].
  intros x Hx y. unfold Reshape.convert_year.
  destruct (Num.py_int _); simpl; [|done..]. by intros [= <-].
Qed.

Lemma grouped_by_country_sublist t1 t2 :
  t1 `sublist_of` t2 → grouped_by_country t2 → grouped_by_country t1.
Proof. intros Hsub Hg r1 r2 r3 H123. apply Hg. by etrans. Qed.

Lemma years_ascending_sublist t1 t2 :
  t1 `sublist_of` t2 → years_ascending t2 → years_ascending t1.
Proof. intros Hsub Hg r1 r2 H12. apply Hg. by etrans. Qed.

Lemma country_melt_row `{Scope} years row r :
  r ∈ long_of_molten <$> melt_row years row → country r = row.1.
Proof.
  unfold melt_row. rewrite <- list_fmap_compose.
  by intros (yv & -> & _)%list_elem_of_fmap.
Qed.

Lemma country_melt_rows `{Scope} years (rs : list (string * list string)) r :
  r ∈ long_of_molten <$> (rs ≫= melt_row years) → country r ∈ rs.*1.
Proof.
  rewrite fmap_bind_list. intros (row & Hr & Hrow)%list_elem_of_bind.
  rewrite (country_melt_row _ _ _ Hr). by apply list_elem_of_fmap_2.
Qed.

Lemma StronglySorted_pair {A : Type} (R : relation A) (l : list A) a b :
  StronglySorted R l → [a; b] `sublist_of` l → R a b.
Proof.
  induction 1 as [|x k Hk IH Hx]; intros Hsub.
  - by apply sublist_nil_r in Hsub.
  - apply sublist_cons_r in Hsub as [Hsub|(l' & [= -> <-] & Hb)]; [by apply IH|].
    rewrite Forall_forall in Hx. apply Hx.
    apply (sublist_subseteq _ _ Hb). by left.
Qed.

(** Molten row by row, the records of a country are contiguous when the
    names are unique. *)
Lemma grouped_melt_rows `{Scope} years (rs : list (string * list string)) :
  NoDup rs.*1 →
  grouped_by_country (long_of_molten <$> (rs ≫= melt_row years)).
Proof.
  induction rs as [|row rs IH]; intros Hnd r1 r2 r3 Hsub Heq.
  - by apply sublist_nil_r in Hsub.
  - rewrite fmap_cons in Hnd. apply NoDup_cons in Hnd as [Hrow Hnd].
    rewrite bind_cons, fmap_app in Hsub.
    apply sublist_app_r in Hsub as (l1 & l2 & Hl & H1 & H2).
    pose proof (sublist_subseteq _ _ H1) as Hin1.
    pose proof (sublist_subseteq _ _ H2) as Hin2.
    destruct l1 as [|a [|b [|c l1]]]; simpl in Hl.
    + subst l2. by apply (IH Hnd r1 r2 r3).
    + injection Hl as <- <-.
      destruct Hrow. rewrite <- (country_melt_row years row r1), Heq.
      * apply (country_melt_rows years). apply Hin2. set_solver.
      * apply Hin1. set_solver.
    + injection Hl as <- <- <-.
      destruct Hrow. rewrite <- (country_melt_row years row r1), Heq.
      * apply (country_melt_rows years). apply Hin2. set_solver.
      * apply Hin1. set_solver.
    + injection Hl as <- <- <- _.
      rewrite (country_melt_row years row r1), (country_melt_row years row r2);
        [done|apply Hin1; set_solver..].
Qed.

(** And within a country the years follow the order of the year columns. *)
Lemma ascending_melt_rows `{Scope} years (rs : list (string * list string)) :
  NoDup rs.*1 →
  Forall (fun row => length row.2 = length years) rs →
  StronglySorted Z.lt ((fun y => from_Ok 0 (Num.py_int y)) <$> years) →
  years_ascending (long_of_molten <$> (rs ≫= melt_row years)).
Proof.
  intros Hnd Hlen Hsorted.
  induction rs as [|row rs IH]; intros r1 r2 Hsub Heq.
  - by apply sublist_nil_r in Hsub.
  - rewrite fmap_cons in Hnd. apply NoDup_cons in Hnd as [Hrow Hnd].
    apply Forall_cons in Hlen as [Hlrow Hlen].
    rewrite bind_cons, fmap_app in Hsub.
    apply sublist_app_r in Hsub as (l1 & l2 & Hl & H1 & H2).
    pose proof (sublist_subseteq _ _ H1) as Hin1.
    pose proof (sublist_subseteq _ _ H2) as Hin2.
    destruct l1 as [|a [|b l1]]; simpl in Hl.
    + subst l2. by apply (IH Hnd Hlen r1 r2).
    + injection Hl as <- <-.
      destruct Hrow. rewrite <- (country_melt_row years row r1), Heq.
      * apply (country_melt_rows years). apply Hin2. set_solver.
      * apply Hin1. set_solver.
    + injection Hl as <- <- Hnil.
      symmetry in Hnil. apply app_eq_nil in Hnil as [-> ->].
      eapply StronglySorted_pair; [exact Hsorted|].
      rewrite <- (year_melt_row years row) by done.
      change [year r1; year r2] with (year <$> [r1; r2]).
      by apply fmap_sublist.
Qed.

(** The records that pass, row after row of the dataset and, within a
    row, year column after year column. *)
Lemma filter_melt_rows `{Scope} yr cs years (rs : list (string * list string)) :
  filter (passes yr cs) (long_of_molten <$> (rs ≫= melt_row years))
  = filter (fun row => row.1 ∈ cs) rs ≫= fun row =>
      filter (fun r => yr.1 <= year r <= yr.2)
             (long_of_molten <$> melt_row years row).
Proof.
  induction rs as [|row rs IH]; [done|].
  rewrite bind_cons, fmap_app, filter_app, IH, filter_cons.
  set (B := long_of_molten <$> melt_row years row).
  case_decide as Hc.
  - rewrite bind_cons. f_equal.
    apply filter_ext_in. intros r Hr. unfold passes.
    rewrite (country_melt_row years row r Hr). tauto.
  - rewrite filter_none; [done|]. intros r Hr [_ Hin].
    by rewrite (country_melt_row years row r Hr) in Hin.
Qed.

Lemma key_filter_melt_row `{Scope} (yr : Z * Z) years row :
  length row.2 = length years →
  key <$> filter (fun r => yr.1 <= year r <= yr.2)
                 (long_of_molten <$> melt_row years row)
  = pair row.1 <$> filter (fun y => yr.1 <= y <= yr.2)
                          ((fun y => from_Ok 0 (Num.py_int y)) <$> years).
Proof.
  intros Hlen.
  trans (filter (fun k : string * Z => yr.1 <= k.2 <= yr.2)
                (key <$> (long_of_molten <$> melt_row years row))).
  { by rewrite (filter_fmap_comm key). }
  rewrite key_melt_row by done.
  change (fun y => (row.1, from_Ok 0 (Num.py_int y)))
    with (pair row.1 ∘ (fun y => from_Ok 0 (Num.py_int y))).
  rewrite list_fmap_compose. by rewrite (filter_fmap_comm (pair row.1)).
Qed.

Lemma startup_no_clash `{Scope} df s : App.startup df = Ok s → no_clash df.
Proof.
  unfold App.startup.
  destruct (Reshape.df_pivot df) as [t| |] eqn:Ht; simpl; [|done..].
  intros _. by eapply df_pivot_no_clash.
Qed.

(** C8, as the code has it.  The callback sorts nothing: its result is a
    subsequence of the long table.  For the table [startup] builds from a
    well-formed dataset the result holds, for the selected countries in
    the order of the dataset's rows, the records of the year columns
    within the bounds in the order of the columns; so it is grouped by
    country, and within a country the years ascend when the year columns
    do. *)
Theorem filter_keeps_table_order `{Scope} df s yr cs :
  wide_ok df → App.startup df = Ok s → NoDup cs → cs ⊆ country_set s →
  ∃ res, (App.update_figure yr cs s).1 = Ok res
       ∧ res `sublist_of` App.df_pivot s
       ∧ grouped_by_country res
       ∧ (StronglySorted Z.lt (year_values df) → years_ascending res)
       ∧ res = (filter (fun row => row.1 ∈ cs) (rows df) ≫= fun row =>
                  filter (fun r => yr.1 <= year r <= yr.2)
                         (long_of_molten <$> melt_row (year_columns df) row))
       ∧ key <$> res
         = (filter (fun row => row.1 ∈ cs) (rows df) ≫= fun row =>
              pair row.1 <$> filter (fun y => yr.1 <= y <= yr.2) (year_values df)).
Proof.
  intros Hwide Hstart Hcs Hsub.
  pose proof (startup_state_ok df s Hstart) as Hok.
  pose proof (startup_no_clash df s Hstart) as Hno.
  eexists. split; [by apply update_figure_result|].
  assert (Hres : filter (passes yr cs) (App.df_pivot s) `sublist_of` App.df_pivot s)
    by apply sublist_filter.
  split; [done|].
  unfold App.startup in Hstart. rewrite df_pivot_wide in Hstart by done.
  injection Hstart as <-. simpl in *.
  destruct Hwide as (Hnd & Hlen & _). unfold rectangular in Hlen.
  split; [|split; [|split]].
  - eapply grouped_by_country_sublist; [exact Hres|]. by apply grouped_melt_rows.
  - intros Hsorted. eapply years_ascending_sublist; [exact Hres|].
    by apply ascending_melt_rows.
  - apply filter_melt_rows.
  - rewrite filter_melt_rows, fmap_bind_list.
    apply Forall_bind_ext, Forall_forall. intros row Hrow.
    apply list_elem_of_filter in Hrow as [_ Hrow].
    rewrite Forall_forall in Hlen.
    by rewrite key_filter_melt_row by by apply Hlen.
Qed.

Lemma filter_keeps_table_order_witness :
  ∃ res, (App.update_figure (1800, 1850) ["France"] sample_state).1 = Ok res
       ∧ res `sublist_of` App.df_pivot sample_state
       ∧ grouped_by_country res
       ∧ (StronglySorted Z.lt (year_values sample_df) → years_ascending res)
       ∧ res = (filter (fun row => row.1 ∈ ["France"]) (rows sample_df) ≫= fun row =>
                  filter (fun r => (1800, 1850).1 <= year r <= (1800, 1850).2)
                         (long_of_molten <$> melt_row (year_columns sample_df) row))
       ∧ key <$> res
         = (filter (fun row => row.1 ∈ ["France"]) (rows sample_df) ≫= fun row =>
              pair row.1 <$> filter (fun y => (1800, 1850).1 <= y <= (1800, 1850).2)
                                    (year_values sample_df)).
Proof.
  apply (filter_keeps_table_order sample_df sample_state (1800, 1850) ["France"]);
    [by_evaluation | vm_compute; reflexivity | by_evaluation | by_evaluation].
Defined.

(** C8, as stated, fails: on a dataset whose year columns are 1825, 1800
    the result for the USA lists 1825 before 1800. *)
Lemma unsorted_columns_stay_unsorted :
  ∃ s res, App.startup unsorted_df = Ok s
         ∧ (App.update_figure (1800, 1825) ["USA"] s).1 = Ok res
         ∧ res = [ {| year := 1825; country := "USA"; gdp := 2500 |};
                   {| year := 1800; country := "USA"; gdp := 2100 |} ]
         ∧ ¬ years_ascending res.
Proof.
  eexists _, _. split; [vm_compute; reflexivity|].
  split; [vm_compute; reflexivity|]. split; [reflexivity|].
  intros Hasc.
  specialize (Hasc {| year := 1825; country := "USA"; gdp := 2500 |}
                   {| year := 1800; country := "USA"; gdp := 2100 |}).
  assert (1825 < 1800); [|lia]. by apply Hasc.
Qed.

(** Nor are the countries put in alphabetical order, or in the order of
    the selection: the sample lists the USA before France, and so does the
    result. *)
Example countries_stay_in_dataset_order :
  (App.update_figure (1800, 1800) ["France"; "USA"] sample_state).1
  = Ok [ {| year := 1800; country := "USA"; gdp := 2100 |};
         {| year := 1800; country := "France"; gdp := 1800 |} ].
Proof. vm_compute. reflexivity. Qed.

(** ** Calls one after another *)

(** What a call leaves as it was, whatever its arguments. *)
Lemma update_figure_globals yr cs s :
  App.df_pivot (App.update_figure yr cs s).2 = App.df_pivot s
  ∧ App.all_countries (App.update_figure yr cs s).2 = App.all_countries s
  ∧ App.heap (App.update_figure yr cs s).2 !! App.all_countries s
    = App.heap s !! App.all_countries s.
Proof.
  destruct (App.heap s !! App.all_countries s) as [ac|] eqn:Hac.
  - destruct (update_figure_run yr cs s ac Hac) as (s' & -> & Hdf & Hall & _ & Hheap).
    simpl. repeat split; try done.
    rewrite Hheap; [done|]. apply elem_of_dom. by eexists.
  - unfold App.update_figure, App.exclude_unselected.
    unfold mbind, App.M_bind, App.get_df_pivot, App.get_all_countries, App.list_copy.
    rewrite Hac. by repeat split.
Qed.

(** The outcome of a call reads nothing but the long table and the items
    of the country list. *)
Lemma update_figure_ext yr cs s1 s2 :
  App.df_pivot s1 = App.df_pivot s2 →
  App.heap s1 !! App.all_countries s1 = App.heap s2 !! App.all_countries s2 →
  (App.update_figure yr cs s1).1 = (App.update_figure yr cs s2).1.
Proof.
  intros Hdf Hac.
  destruct (App.heap s2 !! App.all_countries s2) as [ac|] eqn:Hac2.
  - destruct (update_figure_run yr cs s1 ac Hac) as (s1' & -> & _).
    destruct (update_figure_run yr cs s2 ac Hac2) as (s2' & -> & _).
    simpl. by rewrite Hdf.
  - unfold App.update_figure, App.exclude_unselected.
    unfold mbind, App.M_bind, App.get_df_pivot, App.get_all_countries, App.list_copy.
    by rewrite Hac, Hac2.
Qed.

Lemma run_calls_globals calls : ∀ s,
  App.df_pivot (run_calls calls s) = App.df_pivot s
  ∧ App.all_countries (run_calls calls s) = App.all_countries s
  ∧ App.heap (run_calls calls s) !! App.all_countries s
    = App.heap s !! App.all_countries s.
Proof.
  induction calls as [|[yr cs] calls IH]; intros s; [done|]. simpl.
  destruct (IH (App.update_figure yr cs s).2) as (Hdf & Hall & Hheap).
  destruct (update_figure_globals yr cs s) as (Hdf1 & Hall1 & Hheap1).
  rewrite Hall1 in Hall, Hheap.
  repeat split; congruence.
Qed.

(** The outcome of a call on a state [startup] could have left. *)
Lemma update_figure_outcome s yr cs :
  state_ok s →
  (App.update_figure yr cs s).1
  = if decide (NoDup cs ∧ cs ⊆ country_set s)
    then Ok (filter (passes yr cs) (App.df_pivot s))
    else Raise ValueError.
Proof.
  intros Hok. case_decide as Hsel.
  - destruct Hsel. by apply update_figure_result.
  - destruct (update_figure_run yr cs s _ (state_ok_heap s Hok)) as (s' & -> & _).
    simpl. destruct (remove_each cs (country_set s)) as [cf|] eqn:Hcf; [|done].
    destruct Hsel. destruct Hok as (_ & Hnd & _). by eapply remove_each_Some.
Qed.

(** X1.  On a state [startup] left, a call raises, and then [ValueError],
    exactly when the selection names a country twice or names one that is
    not in the dataset; otherwise it returns a frame. *)
Theorem update_figure_raises_iff s yr cs :
  state_ok s →
  ((App.update_figure yr cs s).1 = Raise ValueError
     ↔ ¬ (NoDup cs ∧ cs ⊆ country_set s))
  ∧ ((∃ res, (App.update_figure yr cs s).1 = Ok res)
     ↔ NoDup cs ∧ cs ⊆ country_set s).
Proof.
  intros Hok. rewrite update_figure_outcome by done.
  case_decide as Hsel; split; split; try done.
  - intros _. by eexists.
  - by intros [res ?].
Qed.

Lemma update_figure_raises_iff_witness :
  ((App.update_figure (1800, 1850) ["USA"; "USA"] sample_state).1 = Raise ValueError
     ↔ ¬ (NoDup ["USA"; "USA"] ∧ ["USA"; "USA"] ⊆ country_set sample_state))
  ∧ ((∃ res, (App.update_figure (1800, 1850) ["USA"; "USA"] sample_state).1 = Ok res)
     ↔ NoDup ["USA"; "USA"] ∧ ["USA"; "USA"] ⊆ country_set sample_state).
Proof.
  apply (update_figure_raises_iff sample_state (1800, 1850) ["USA"; "USA"]).
  by_evaluation.
Defined.

(** X2.  However many calls were made, with whatever arguments and
    outcomes, the long table and the country list are what they were, and
    what [startup] established about them still holds. *)
Theorem run_calls_keep_the_globals calls s :
  App.df_pivot (run_calls calls s) = App.df_pivot s
  ∧ country_set (run_calls calls s) = country_set s
  ∧ (state_ok s → state_ok (run_calls calls s)).
Proof.
  destruct (run_calls_globals calls s) as (Hdf & Hall & Hheap).
  assert (Hcs : country_set (run_calls calls s) = country_set s).
  { unfold country_set. by rewrite Hall, Hheap. }
  split; [done|]. split; [done|].
  unfold state_ok. by rewrite Hcs, Hdf, Hall, Hheap.
Qed.

(** X3.  What a call returns or raises does not depend on the calls made
    before it. *)
Theorem update_figure_forgets_earlier_calls calls s yr cs :
  (App.update_figure yr cs (run_calls calls s)).1 = (App.update_figure yr cs s).1.
Proof.
  destruct (run_calls_globals calls s) as (Hdf & Hall & Hheap).
  apply update_figure_ext; [done|]. by rewrite Hall.
Qed.

(** X4.  Every call whose state has the country list prints that list
    once, in full, whatever the selection and also when it raises. *)
Theorem update_figure_prints_the_countries s yr cs :
  is_Some (App.heap s !! App.all_countries s) →
  App.stdout (App.update_figure yr cs s).2 = App.stdout s ++ [country_set s].
Proof.
  intros [ac Hac].
  destruct (update_figure_run yr cs s ac Hac) as (s' & -> & _ & _ & Hout & _).
  simpl. unfold country_set. by rewrite Hac.
Qed.

Lemma update_figure_prints_the_countries_witness :
  App.stdout (App.update_figure (1800, 1850) ["Atlantis"] sample_state).2
  = App.stdout sample_state ++ [country_set sample_state].
Proof.
  apply (update_figure_prints_the_countries sample_state (1800, 1850) ["Atlantis"]).
  by_evaluation.
Defined.

(** ** The slider's bounds *)

Lemma foldl_min_le (l : list Z) : ∀ x,
  foldl Z.min x l <= x ∧ ∀ y, y ∈ l → foldl Z.min x l <= y.
Proof.
  induction l as [|a l IH]; intros x; simpl.
  - split; [lia|]. intros y Hy. by apply elem_of_nil in Hy.
  - destruct (IH (Z.min x a)) as [Hx Hl]. split; [lia|].
    intros y [->|Hy]%elem_of_cons; [lia|by apply Hl].
Qed.

Lemma foldl_max_ge (l : list Z) : ∀ x,
  x <= foldl Z.max x l ∧ ∀ y, y ∈ l → y <= foldl Z.max x l.
Proof.
  induction l as [|a l IH]; intros x; simpl.
  - split; [lia|]. intros y Hy. by apply elem_of_nil in Hy.
  - destruct (IH (Z.max x a)) as [Hx Hl]. split; [lia|].
    intros y [->|Hy]%elem_of_cons; [lia|by apply Hl].
Qed.

Lemma foldl_min_elem (l : list Z) : ∀ x, foldl Z.min x l ∈ x :: l.
Proof.
  induction l as [|a l IH]; intros x; simpl; [by left|].
  specialize (IH (Z.min x a)). apply elem_of_cons in IH as [->|IH].
  - destruct (Z.min_spec x a) as [[_ ->]|[_ ->]]; [by left|right; by left].
  - right. by right.
Qed.

Lemma foldl_max_elem (l : list Z) : ∀ x, foldl Z.max x l ∈ x :: l.
Proof.
  induction l as [|a l IH]; intros x; simpl; [by left|].
  specialize (IH (Z.max x a)). apply elem_of_cons in IH as [->|IH].
  - destruct (Z.max_spec x a) as [[_ ->]|[_ ->]]; [right; by left|by left].
  - right. by right.
Qed.

Lemma series_min_le l lo y :
  Reshape.series_min l = Some lo → y ∈ l → lo <= y.
Proof.
  destruct l as [|x l]; [done|]. intros [= <-] [->|Hy]%elem_of_cons.
  - exact (proj1 (foldl_min_le l x)).
  - exact (proj2 (foldl_min_le l x) y Hy).
Qed.

Lemma series_max_ge l hi y :
  Reshape.series_max l = Some hi → y ∈ l → y <= hi.
Proof.
  destruct l as [|x l]; [done|]. intros [= <-] [->|Hy]%elem_of_cons.
  - exact (proj1 (foldl_max_ge l x)).
  - exact (proj2 (foldl_max_ge l x) y Hy).
Qed.

(** X6.  The slider's two bounds exist exactly when the long table has a
    record; they are then years of the table, and every year of the table
    lies between them. *)
Theorem year_slider_bounds t :
  (slider_min (year_slider t) = None ↔ t = [])
  ∧ (slider_max (year_slider t) = None ↔ t = [])
  ∧ ∀ lo hi,
      slider_min (year_slider t) = Some lo →
      slider_max (year_slider t) = Some hi →
      lo ∈ year <$> t ∧ hi ∈ year <$> t
      ∧ ∀ r, r ∈ t → lo <= year r <= hi.
Proof.
  simpl. split; [|split].
  - destruct t; simpl; split; done.
  - destruct t; simpl; split; done.
  - intros lo hi Hlo Hhi. split; [|split].
    + destruct (year <$> t) as [|x l]; [done|]. injection Hlo as <-.
      apply foldl_min_elem.
    + destruct (year <$> t) as [|x l]; [done|]. injection Hhi as <-.
      apply foldl_max_elem.
    + intros r Hr. split.
      * eapply series_min_le; [done|]. by apply list_elem_of_fmap_2.
      * eapply series_max_ge; [done|]. by apply list_elem_of_fmap_2.
Qed.

Lemma full_range_result s cs lo hi :
  state_ok s → NoDup cs → cs ⊆ country_set s →
  slider_value (year_slider (App.df_pivot s)) = (Some lo, Some hi) →
  (App.update_figure (lo, hi) cs s).1
  = Ok (inclusion_filter cs (App.df_pivot s)).
Proof.
  intros Hok Hcs Hsub [= Hlo Hhi].
  rewrite update_figure_result by done. f_equal.
  apply filter_ext_in. intros r Hr. unfold passes. simpl.
  assert (Hy : year r ∈ year <$> App.df_pivot s) by by apply list_elem_of_fmap_2.
  pose proof (series_min_le _ _ _ Hlo Hy).
  pose proof (series_max_ge _ _ _ Hhi Hy). tauto.
Qed.

(** X7.  With the slider at its initial position, the least and the
    greatest year of the table, the year range excludes nothing: a valid
    selection gets every record of its countries. *)
Theorem full_range_keeps_every_year s cs lo hi :
  state_ok s → NoDup cs → cs ⊆ country_set s →
  slider_value (year_slider (App.df_pivot s)) = (Some lo, Some hi) →
  (App.update_figure (lo, hi) cs s).1
  = Ok (inclusion_filter cs (App.df_pivot s)).
Proof. apply full_range_result. Qed.

Lemma full_range_keeps_every_year_witness :
  (App.update_figure (1800, 1850) ["France"] sample_state).1
  = Ok (inclusion_filter ["France"] (App.df_pivot sample_state)).
Proof.
  apply (full_range_keeps_every_year sample_state ["France"] 1800 1850);
    [by_evaluation | by_evaluation | by_evaluation | vm_compute; reflexivity].
Defined.

(** X8.  With the slider at its initial position and every country of the
    dataset selected once, in any order, the call returns the long table
    itself. *)
Theorem full_selection_returns_the_table s cs lo hi :
  state_ok s → NoDup cs → (∀ c, c ∈ cs ↔ c ∈ country_set s) →
  slider_value (year_slider (App.df_pivot s)) = (Some lo, Some hi) →
  (App.update_figure (lo, hi) cs s).1 = Ok (App.df_pivot s).
Proof.
  intros Hok Hcs Hall [= Hlo Hhi].
  rewrite update_figure_result; [|done..|intros c; apply Hall].
  f_equal. apply filter_all. intros r Hr.
  assert (Hy : year r ∈ year <$> App.df_pivot s) by by apply list_elem_of_fmap_2.
  pose proof (series_min_le _ _ _ Hlo Hy).
  pose proof (series_max_ge _ _ _ Hhi Hy).
  destruct Hok as (_ & _ & Hin). rewrite Forall_forall in Hin.
  split; [simpl; lia|]. apply Hall. by apply Hin.
Qed.

Lemma full_selection_returns_the_table_witness :
  (App.update_figure (1800, 1850) ["France"; "USA"] sample_state).1
  = Ok (App.df_pivot sample_state).
Proof.
  apply (full_selection_returns_the_table sample_state ["France"; "USA"] 1800 1850);
    [by_evaluation | by_evaluation | | vm_compute; reflexivity].
  intros c. change (country_set sample_state) with ["USA"; "France"].
  rewrite !elem_of_cons, !elem_of_nil. tauto.
Defined.

(** ** The dropdown *)

Lemma startup_globals `{Scope} df s :
  App.startup df = Ok s →
  Reshape.df_pivot df = Ok (App.df_pivot s)
  ∧ country_set s = Reshape.all_countries df
  ∧ App.stdout s = [].
Proof.
  unfold App.startup. destruct (Reshape.df_pivot df) as [t| |]; simpl; [|done..].
  intros [= <-]. unfold country_set. simpl. by rewrite lookup_singleton_eq.
Qed.

Lemma value_dropdown_options df :
  value <$> dropdown_options df = py_sorted (Reshape.all_countries df).
Proof.
  unfold dropdown_options. rewrite <- list_fmap_compose.
  etrans; [|apply list_fmap_id]. by apply list_fmap_ext.
Qed.

(** X9.  The dropdown offers every country name of the file once, in
    sorted order, each under its own name as label. *)
Theorem dropdown_options_list_the_countries df :
  value <$> dropdown_options df ≡ₚ Reshape.all_countries df
  ∧ NoDup (value <$> dropdown_options df)
  ∧ Sorted str_le (value <$> dropdown_options df)
  ∧ (∀ c, c ∈ value <$> dropdown_options df ↔ c ∈ (rows df).*1)
  ∧ Forall (fun o => label o = value o) (dropdown_options df).
Proof.
  rewrite value_dropdown_options. unfold py_sorted.
  split; [apply merge_sort_Permutation|].
  split; [rewrite merge_sort_Permutation; apply NoDup_unique|].
  split; [apply Sorted_merge_sort; apply _|].
  split.
  - intros c. rewrite merge_sort_Permutation. apply elem_of_unique.
  - unfold dropdown_options. apply Forall_fmap, Forall_true. by intros x.
Qed.

(** The sample's options: France before the USA, though the file lists
    the USA first. *)
Example dropdown_options_sample :
  dropdown_options sample_df
  = [ {| label := "France"; value := "France" |};
      {| label := "USA"; value := "USA" |} ].
Proof. vm_compute. reflexivity. Qed.

(** X10.  Whatever distinct countries are picked among the dropdown's
    options, and whatever the year range, the call returns a frame: it
    cannot raise. *)
Theorem dropdown_selection_is_accepted `{Scope} df s yr cs :
  App.startup df = Ok s → NoDup cs → cs ⊆ value <$> dropdown_options df →
  (App.update_figure yr cs s).1 = Ok (filter (passes yr cs) (App.df_pivot s)).
Proof.
  intros Hstart Hcs Hsub.
  apply update_figure_result; [by eapply startup_state_ok|done|].
  destruct (startup_globals df s Hstart) as (_ & -> & _).
  intros c Hc. apply Hsub in Hc.
  rewrite value_dropdown_options in Hc. unfold py_sorted in Hc.
  by rewrite merge_sort_Permutation in Hc.
Qed.

Lemma dropdown_selection_is_accepted_witness :
  (App.update_figure (1800, 1825) ["France"] sample_state).1
  = Ok (filter (passes (1800, 1825) ["France"]) (App.df_pivot sample_state)).
Proof.
  apply (dropdown_selection_is_accepted sample_df sample_state (1800, 1825) ["France"]);
    [vm_compute; reflexivity | by_evaluation | by_evaluation].
Defined.

(** X11.  The first call, made with the controls' initial values on a
    dataset that has a record, returns every record of the six initial
    countries when the dataset has all six, and raises [ValueError] when it
    lacks one of them. *)
Theorem initial_call_outcome `{Scope} df s :
  App.startup df = Ok s → App.df_pivot s ≠ [] →
  initial_call s
  = if decide (default_countries ⊆ (rows df).*1)
    then Ok (inclusion_filter default_countries (App.df_pivot s))
    else Raise ValueError.
Proof.
  intros Hstart Hne.
  pose proof (startup_state_ok df s Hstart) as Hok.
  destruct (startup_globals df s Hstart) as (_ & Hcs & _).
  assert (Hsub : default_countries ⊆ country_set s
                 ↔ default_countries ⊆ (rows df).*1).
  { rewrite Hcs. unfold Reshape.all_countries.
    split; intros Hin c Hc; apply Hin in Hc; by apply elem_of_unique. }
  unfold initial_call.
  destruct (slider_value (year_slider (App.df_pivot s))) as [[lo|] [hi|]] eqn:Hv;
    try (destruct (App.df_pivot s); simpl in Hv; done).
  case_decide as Hd.
  - apply full_range_result; [done|by_evaluation|by apply Hsub|done].
  - rewrite update_figure_outcome by done.
    rewrite decide_False; [done|]. intros [_ ?]. by apply Hd, Hsub.
Qed.

Lemma initial_call_outcome_witness :
  initial_call no_egypt_state
  = if decide (default_countries ⊆ (rows no_egypt_df).*1)
    then Ok (inclusion_filter default_countries (App.df_pivot no_egypt_state))
    else Raise ValueError.
Proof.
  apply (initial_call_outcome no_egypt_df no_egypt_state);
    [vm_compute; reflexivity | vm_compute; discriminate].
Defined.

(** On a dataset without Egypt the page's first call raises. *)
Example initial_call_without_egypt : initial_call no_egypt_state = Raise ValueError.
Proof. vm_compute. reflexivity. Qed.

(** ** Startup on a dataset it cannot convert *)

Lemma py_map_raises {A B : Type} (f : A -> py B) (l : list A) :
  Forall (fun x => modelled (f x)) l →
  Exists (fun x => is_Raise (f x)) l →
  is_Raise (py_map f l).
Proof.
  induction 1 as [|x l Hx Hl IH]; intros Hex; [by apply Exists_nil in Hex|].
  simpl. destruct (f x) as [y|e|] eqn:Hfx; simpl in *; [|done..].
  apply Exists_cons in Hex as [Hraise|Hex]; [by rewrite Hfx in Hraise|].
  specialize (IH Hex). by destruct (py_map f l).
Qed.

Lemma py_map_modelled {A B : Type} (f : A -> py B) (l : list A) :
  Forall (fun x => modelled (f x)) l → modelled (py_map f l).
Proof.
  induction 1 as [|x l Hx Hl IH]; [done|].
  simpl. destruct (f x) as [y|e|]; simpl in *; [|done..].
  by destruct (py_map f l).
Qed.

(** Every cell of a frame is molten, under its row's name and its
    column's label. *)
(** When lines 17-31 raise, so does the startup. *)
Lemma startup_melted_raises `{Scope} df :
  rectangular df → is_Raise (Reshape.melted df) → is_Raise (App.startup df).
Proof.
  intros Hrect Hraise. unfold App.startup, Reshape.df_pivot.
  rewrite decide_True by done. by destruct (Reshape.melted df).
Qed.

Lemma melt_covers df row i y cell :
  row ∈ rows df → year_columns df !! i = Some y → row.2 !! i = Some cell →
  {| Reshape.m_year := y; Reshape.m_country := row.1; Reshape.m_gdp := cell |}
  ∈ Reshape.molten (year_columns df) (rows df) (Reshape.all_countries df).
Proof.
  intros Hrow Hy Hcell. unfold Reshape.molten.
  apply list_elem_of_bind. exists row.1. split.
  - apply list_elem_of_bind. exists row. split; [|done].
    unfold Reshape.melt_column. rewrite decide_True by done.
    apply (list_elem_of_fmap_2' _ _ (y, cell)); [|done].
    apply list_elem_of_lookup. exists i. by apply lookup_zip_Some.
  - apply elem_of_unique. by apply list_elem_of_fmap_2.
Qed.

Lemma melt_cells df m :
  m ∈ Reshape.molten (year_columns df) (rows df) (Reshape.all_countries df) →
  Reshape.m_year m ∈ year_columns df
  ∧ ∃ row, row ∈ rows df ∧ Reshape.m_gdp m ∈ row.2.
Proof.
  unfold Reshape.molten.
  intros (c & (col & Hm & Hcol)%list_elem_of_bind & _)%list_elem_of_bind.
  unfold Reshape.melt_column in Hm. case_decide; [|by apply elem_of_nil in Hm].
  apply list_elem_of_fmap in Hm as ([y v] & -> & Hyv). simpl. split.
  - by eapply elem_of_zip_l.
  - exists col. split; [done|]. by eapply elem_of_zip_r.
Qed.

(** X12.  A cell whose evaluation at line 33 raises (a cell with a name
    the scope of the evaluator does not bind, say) aborts the startup: no
    long table is built and no record is dropped in silence. *)
Theorem malformed_cell_aborts_startup `{Scope} df :
  rectangular df →
  Forall (fun row => Forall (fun cell => modelled (parse_gdp cell)) row.2) (rows df) →
  Exists (fun row => Exists (fun cell => is_Raise (parse_gdp cell)) row.2) (rows df) →
  is_Raise (App.startup df).
Proof.
  intros Hrect Hmod Hex.
  destruct (decide (no_clash df)) as [Hno|Hclash];
    [|by apply startup_melted_raises, melted_clash].
  assert (Hraise : is_Raise (py_map Reshape.convert_gdp
            (Reshape.molten (year_columns df) (rows df)
               (Reshape.all_countries df)))).
  { apply py_map_raises.
    - apply Forall_forall. intros m Hm.
      destruct (melt_cells df m Hm) as (_ & row & Hrow & Hcell).
      rewrite Forall_forall in Hmod. specialize (Hmod row Hrow).
      rewrite Forall_forall in Hmod. specialize (Hmod _ Hcell).
      unfold Reshape.convert_gdp. by destruct (parse_gdp _).
    - apply Exists_exists in Hex as (row & Hrow & Hex).
      apply Exists_exists in Hex as (cell & Hcell & Hbad).
      apply list_elem_of_lookup in Hcell as [i Hi].
      destruct (lookup_lt_is_Some_2 (year_columns df) i) as [y Hy].
      { unfold rectangular in Hrect. rewrite Forall_forall in Hrect.
        rewrite <- (Hrect row Hrow). by eapply lookup_lt_Some. }
      apply Exists_exists. eexists. split; [by eapply melt_covers|].
      unfold Reshape.convert_gdp. simpl. by destruct (parse_gdp cell). }
  unfold App.startup, Reshape.df_pivot.
  rewrite decide_True, melted_no_clash by done. simpl.
  by destruct (py_map Reshape.convert_gdp _).
Qed.

Lemma malformed_cell_aborts_startup_witness : is_Raise (App.startup broken_df).
Proof. apply (malformed_cell_aborts_startup broken_df); by_evaluation. Defined.

(** X13.  When the cells convert, the dataset has a row, and a year label
    is no integer, line 35 aborts the startup with [int]'s exception. *)
Theorem bad_year_label_aborts_startup `{Scope} df :
  rectangular df → rows df ≠ [] →
  Forall (fun row => Forall (fun cell => is_Ok (parse_gdp cell)) row.2) (rows df) →
  Forall (fun y => modelled (Num.py_int y)) (year_columns df) →
  Exists (fun y => is_Raise (Num.py_int y)) (year_columns df) →
  is_Raise (App.startup df).
Proof.
  intros Hrect Hrows Hcells Hmod Hex.
  destruct (decide (no_clash df)) as [Hno|Hclash];
    [|by apply startup_melted_raises, melted_clash].
  set (M := Reshape.molten (year_columns df) (rows df)
              (Reshape.all_countries df)).
  set (g := fun m => (Reshape.m_year m, Reshape.m_country m,
                      from_Ok 0 (parse_gdp (Reshape.m_gdp m)))).
  assert (Hgdp : py_map Reshape.convert_gdp M = Ok (g <$> M)).
  { apply py_map_Ok, Forall_forall. intros m Hm.
    destruct (melt_cells df m Hm) as (_ & row & Hrow & Hcell).
    rewrite Forall_forall in Hcells. specialize (Hcells row Hrow).
    rewrite Forall_forall in Hcells. specialize (Hcells _ Hcell).
    unfold Reshape.convert_gdp. by rewrite (is_Ok_from_Ok 0 _ Hcells) at 1. }
  assert (Hraise : is_Raise (py_map Reshape.convert_year (g <$> M))).
  { apply py_map_raises.
    - apply Forall_fmap, Forall_forall. intros m Hm.
      destruct (melt_cells df m Hm) as (Hy & _).
      rewrite Forall_forall in Hmod. specialize (Hmod _ Hy).
      unfold Reshape.convert_year. simpl. by destruct (Num.py_int _).
    - apply Exists_exists in Hex as (y & Hy & Hbad).
      apply list_elem_of_lookup in Hy as [i Hi].
      assert (∃ row, row ∈ rows df) as [row Hrow].
      { destruct (rows df) as [|row rs]; [done|]. exists row. by left. }
      destruct (lookup_lt_is_Some_2 row.2 i) as [cell Hcell].
      { unfold rectangular in Hrect. rewrite Forall_forall in Hrect.
        rewrite (Hrect row Hrow). by eapply lookup_lt_Some. }
      apply Exists_fmap, Exists_exists. eexists.
      split; [by eapply (melt_covers df row i y cell)|].
      unfold Reshape.convert_year. simpl. by destruct (Num.py_int y). }
  unfold App.startup, Reshape.df_pivot.
  rewrite decide_True, melted_no_clash by done. simpl.
  fold M. rewrite Hgdp. simpl.
  by destruct (py_map Reshape.convert_year _).
Qed.

Lemma bad_year_label_aborts_startup_witness :
  is_Raise (App.startup {| year_columns := ["1800"; "year"];
                           rows := [("USA", ["2.1k"; "2.5k"])] |}).
Proof.
  apply (bad_year_label_aborts_startup
           {| year_columns := ["1800"; "year"];
              rows := [("USA", ["2.1k"; "2.5k"])] |});
    [by_evaluation | done | by_evaluation | by_evaluation | by_evaluation].
Defined.

(** ** The slider's marks *)

Lemma slider_marks_lookup (l : list Z) k : ∀ m : gmap string string,
  foldl (fun m y => <[pretty y := pretty y]> m) m l !! k
  = if decide (k ∈ pretty <$> l) then Some k else m !! k.
Proof.
  induction l as [|y l IH]; intros m; [done|].
  rewrite fmap_cons. simpl. rewrite IH.
  destruct (decide (k ∈ pretty <$> l)) as [Hin|Hnin].
  - rewrite decide_True; [done|by right].
  - destruct (decide (k = pretty y)) as [->|Hne].
    + rewrite lookup_insert_eq. rewrite decide_True; [done|by left].
    + rewrite lookup_insert_ne by done.
      rewrite decide_False; [done|]. by intros [?|?]%elem_of_cons.
Qed.

Lemma slider_marks_size (l : list Z) :
  NoDup l → size (slider_marks l) = length l.
Proof.
  unfold slider_marks. induction l as [|y l IH] using rev_ind; intros Hnd; [done|].
  apply NoDup_app in Hnd as (Hl & Hy & _).
  rewrite foldl_app, length_app. simpl.
  rewrite map_size_insert_None; [rewrite IH by done; lia|].
  rewrite slider_marks_lookup, lookup_empty.
  rewrite decide_False; [done|].
  intros (y' & Heq & Hin)%list_elem_of_fmap. apply (inj pretty) in Heq. subst y'.
  apply (Hy y); [done|by left].
Qed.

(** X14.  The slider's marks map the decimal spelling of each year of the
    table that is divisible by 25 to itself and hold nothing else, one
    entry per such year. *)
Theorem slider_marks_label_the_mark_years t :
  (∀ k v, marks (year_slider t) !! k = Some v
          ↔ v = k ∧ ∃ y, y ∈ year <$> t ∧ y `mod` 25 = 0 ∧ k = pretty y)
  ∧ size (marks (year_slider t))
    = length (Reshape.mark_years (Reshape.unique_years t)).
Proof.
  change (marks (year_slider t))
    with (slider_marks (Reshape.mark_years (Reshape.unique_years t))).
  split.
  - intros k v. unfold slider_marks. rewrite slider_marks_lookup, lookup_empty.
    case_decide as Hk.
    + apply list_elem_of_fmap in Hk as (y & -> & Hy).
      unfold Reshape.mark_years, Reshape.unique_years in Hy.
      apply list_elem_of_filter in Hy as [Hmod Hy]. rewrite elem_of_unique in Hy.
      split; [|by intros [-> _]].
      intros [= <-]. split; [done|]. exists y. by repeat split.
    + split; [done|]. intros [-> (y & Hy & Hmod & ->)]. destruct Hk.
      apply list_elem_of_fmap_2. unfold Reshape.mark_years, Reshape.unique_years.
      apply list_elem_of_filter. split; [done|]. by apply elem_of_unique.
  - apply slider_marks_size. unfold Reshape.mark_years, Reshape.unique_years.
    apply NoDup_filter, NoDup_unique.
Qed.

(** ** More on the filter *)

(** X15.  Filtering a result again by the same selection changes nothing:
    both year comparisons keep all of it, and so do lines 113-121. *)
Theorem update_figure_result_is_a_fixed_point s yr cs res :
  state_ok s → (App.update_figure yr cs s).1 = Ok res →
  filter (fun r => yr.1 <= year r) res = res
  ∧ filter (fun r => year r <= yr.2) res = res
  ∧ (App.exclude_unselected cs res s).1 = Ok res.
Proof.
  intros Hok Hres. rewrite update_figure_outcome in Hres by done.
  case_decide as Hsel; [|done]. injection Hres as <-. destruct Hsel as [Hcs Hsub].
  assert (Hall : ∀ r, r ∈ filter (passes yr cs) (App.df_pivot s) → passes yr cs r).
  { intros r Hr. by apply list_elem_of_filter in Hr as [? _]. }
  split; [|split].
  - apply filter_all. intros r Hr. apply Hall in Hr as [? _]. lia.
  - apply filter_all. intros r Hr. apply Hall in Hr as [? _]. lia.
  - destruct (exclude_unselected_run cs (filter (passes yr cs) (App.df_pivot s)) s _
                (state_ok_heap s Hok)) as (s' & -> & _).
    pose proof Hok as (_ & Hnd & Hin). simpl.
    destruct (exclusion_is_inclusion (country_set s) cs
                (filter (passes yr cs) (App.df_pivot s))) as (cf & -> & ->);
      [done..| |].
    + rewrite Forall_forall in Hin |- *. intros r Hr. apply Hin.
      by apply list_elem_of_filter in Hr as [_ ?].
    + f_equal. apply filter_all. intros r Hr. by apply Hall in Hr as [_ ?].
Qed.

Lemma update_figure_result_is_a_fixed_point_witness :
  filter (fun r => (1800, 1825).1 <= year r)
         [ {| year := 1800; country := "USA"; gdp := 2100 |};
           {| year := 1825; country := "USA"; gdp := 2500 |} ]
  = [ {| year := 1800; country := "USA"; gdp := 2100 |};
      {| year := 1825; country := "USA"; gdp := 2500 |} ]
  ∧ filter (fun r => year r <= (1800, 1825).2)
         [ {| year := 1800; country := "USA"; gdp := 2100 |};
           {| year := 1825; country := "USA"; gdp := 2500 |} ]
    = [ {| year := 1800; country := "USA"; gdp := 2100 |};
        {| year := 1825; country := "USA"; gdp := 2500 |} ]
  ∧ (App.exclude_unselected ["USA"]
       [ {| year := 1800; country := "USA"; gdp := 2100 |};
         {| year := 1825; country := "USA"; gdp := 2500 |} ] sample_state).1
    = Ok [ {| year := 1800; country := "USA"; gdp := 2100 |};
           {| year := 1825; country := "USA"; gdp := 2500 |} ].
Proof.
  apply (update_figure_result_is_a_fixed_point sample_state (1800, 1825) ["USA"]);
    [by_evaluation | vm_compute; reflexivity].
Defined.

(** X16.  The order in which the countries are selected does not matter:
    two selections that are permutations of each other get the same
    outcome, the records in the same order. *)
Theorem selection_order_is_irrelevant s yr cs cs' :
  state_ok s → cs ≡ₚ cs' →
  (App.update_figure yr cs s).1 = (App.update_figure yr cs' s).1.
Proof.
  intros Hok Hperm. rewrite !update_figure_outcome by done.
  assert (Hiff : NoDup cs ∧ cs ⊆ country_set s ↔ NoDup cs' ∧ cs' ⊆ country_set s).
  { by rewrite Hperm. }
  destruct (decide (NoDup cs ∧ cs ⊆ country_set s)) as [Hsel|Hsel].
  - rewrite decide_True by by apply Hiff. f_equal.
    apply list_filter_iff. intros r. unfold passes. by rewrite Hperm.
  - rewrite decide_False; [done|]. intros ?. by apply Hsel, Hiff.
Qed.

Lemma selection_order_is_irrelevant_witness :
  (App.update_figure (1800, 1850) ["France"; "USA"] sample_state).1
  = (App.update_figure (1800, 1850) ["USA"; "France"] sample_state).1.
Proof.
  apply (selection_order_is_irrelevant sample_state (1800, 1850)
           ["France"; "USA"] ["USA"; "France"]); [by_evaluation|].
  apply Permutation_swap.
Defined.

(** ** How many records a call returns *)

Lemma length_filter_rows `{Scope} yr cs years (rs : list (string * list string)) :
  Forall (fun row => length row.2 = length years) rs →
  length (filter (passes yr cs) (long_of_molten <$> (rs ≫= melt_row years)))
  = (length (filter (fun row => row.1 ∈ cs) rs)
     * length (filter (fun y => (yr.1 <= y <= yr.2)%Z)
                 ((fun y => from_Ok 0%Z (Num.py_int y)) <$> years)))%nat.
Proof.
  induction 1 as [|row rs Hrow _ IH]; [done|].
  rewrite bind_cons, fmap_app, filter_app, length_app, IH, filter_cons.
  set (B := long_of_molten <$> melt_row years row).
  case_decide as Hc.
  - assert (Hb : filter (passes yr cs) B
                 = filter (fun r => (yr.1 <= year r <= yr.2)%Z) B).
    { apply filter_ext_in. intros r Hr. unfold passes.
      rewrite (country_melt_row years row r Hr). tauto. }
    assert (Hk : length (filter (fun r => (yr.1 <= year r <= yr.2)%Z) B)
                 = length (filter (fun y => (yr.1 <= y <= yr.2)%Z) (year <$> B)))
      by (by apply length_filter_fmap).
    rewrite Hb, Hk. unfold B. rewrite year_melt_row by done. simpl. lia.
  - rewrite filter_none; [done|]. intros r Hr [_ Hin].
    by rewrite (country_melt_row years row r Hr) in Hin.
Qed.

Lemma length_filter_selected cs (rs : list (string * list string)) :
  NoDup rs.*1 → NoDup cs → cs ⊆ rs.*1 →
  length (filter (fun row => row.1 ∈ cs) rs) = length cs.
Proof.
  intros Hnd Hcs Hsub.
  assert (Hk : length (filter (fun row : string * list string => row.1 ∈ cs) rs)
               = length (filter (fun c => c ∈ cs) rs.*1))
    by (by apply length_filter_fmap).
  rewrite Hk.
  apply Permutation_length, NoDup_Permutation; [by apply NoDup_filter|done|].
  intros c. rewrite list_elem_of_filter. split; [tauto|]. intros Hc.
  split; [done|by apply Hsub].
Qed.

(** X17.  On the long table of a well-formed dataset a valid selection
    gets one record per selected country and year of the range: as many
    records as countries selected times year columns within the bounds. *)
Theorem update_figure_result_size `{Scope} df s yr cs :
  wide_ok df → App.startup df = Ok s → NoDup cs → cs ⊆ country_set s →
  ∃ res, (App.update_figure yr cs s).1 = Ok res
       ∧ length res
         = (length cs
            * length (filter (fun y => (yr.1 <= y <= yr.2)%Z) (year_values df)))%nat.
Proof.
  intros Hwide Hstart Hcs Hsub.
  pose proof (startup_state_ok df s Hstart) as Hok.
  pose proof (startup_no_clash df s Hstart) as Hno.
  destruct (startup_globals df s Hstart) as (Hdf & Hset & _).
  eexists. split; [by apply update_figure_result|].
  rewrite df_pivot_wide in Hdf by done. injection Hdf as <-.
  destruct Hwide as (Hnd & Hlen & _).
  rewrite length_filter_rows by done.
  rewrite length_filter_selected; [done..|].
  rewrite Hset in Hsub. unfold Reshape.all_countries in Hsub.
  by rewrite unique_NoDup in Hsub.
Qed.

Lemma update_figure_result_size_witness :
  ∃ res, (App.update_figure (1800, 1830) ["USA"; "France"] sample_state).1 = Ok res
       ∧ length res
         = (length ["USA"; "France"]
            * length (filter (fun y => ((1800, 1830).1 <= y <= (1800, 1830).2)%Z)
                        (year_values sample_df)))%nat.
Proof.
  apply (update_figure_result_size sample_df sample_state (1800, 1830)
           ["USA"; "France"]);
    [by_evaluation | vm_compute; reflexivity | by_evaluation | by_evaluation].
Defined.

(** ** The country list *)

Lemma unique_from_sublist {A : Type} `{EqDecision A} (l : list A) : ∀ seen,
  unique_from seen l `sublist_of` l.
Proof.
  induction l as [|a l IH]; intros seen; simpl; [done|].
  case_decide; [by apply sublist_cons|by apply sublist_skip].
Qed.

(** What [unique_from] drops depends on the members of [seen] only. *)
Lemma unique_from_ext {A : Type} `{EqDecision A} (l : list A) : ∀ s1 s2,
  (∀ x, x ∈ s1 ↔ x ∈ s2) → unique_from s1 l = unique_from s2 l.
Proof.
  induction l as [|a l IH]; intros s1 s2 Hs; simpl; [done|].
  destruct (decide (a ∈ s1)) as [H1|H1], (decide (a ∈ s2)) as [H2|H2].
  - by apply IH.
  - by apply Hs in H1.
  - by apply Hs in H2.
  - f_equal. apply IH. intros x. rewrite !elem_of_cons, Hs. tauto.
Qed.

(** One more value met before: its occurrences go, the rest stays. *)
Lemma unique_from_cons_seen {A : Type} `{EqDecision A} (c : A) (l : list A) :
  ∀ seen, unique_from (c :: seen) l = filter (fun x => x ≠ c) (unique_from seen l).
Proof.
  induction l as [|a l IH]; intros seen; simpl; [done|].
  destruct (decide (a ∈ seen)) as [Ha|Ha].
  - rewrite decide_True by by right. apply IH.
  - destruct (decide (a = c)) as [->|Hne].
    + rewrite decide_True by by left.
      rewrite filter_cons_False by (by intros ?).
      rewrite !IH, list_filter_filter.
      apply list_filter_iff. intros x. tauto.
    + rewrite decide_False by (rewrite elem_of_cons; tauto).
      rewrite filter_cons_True by done. f_equal.
      rewrite <- IH. apply unique_from_ext. intros x.
      rewrite !elem_of_cons. tauto.
Qed.

Lemma unique_cons {A : Type} `{EqDecision A} (c : A) (l : list A) :
  unique (c :: l) = c :: filter (fun x => x ≠ c) (unique l).
Proof.
  unfold unique.
  change (unique_from [] (c :: l))
    with (if decide (c ∈ []) then unique_from [] l else c :: unique_from [c] l).
  rewrite decide_False by apply not_elem_of_nil.
  f_equal. apply unique_from_cons_seen.
Qed.

(** X19.  [all_countries] holds every country name of the file once, in
    the order of first appearance: the name of the first row comes first,
    followed by the list for the rows below it without that name.  It is
    the column of names itself when no name repeats. *)
Theorem all_countries_lists_each_name_once df :
  NoDup (Reshape.all_countries df)
  ∧ (∀ c, c ∈ Reshape.all_countries df ↔ c ∈ (rows df).*1)
  ∧ Reshape.all_countries df `sublist_of` (rows df).*1
  ∧ (NoDup (rows df).*1 → Reshape.all_countries df = (rows df).*1)
  ∧ (rows df = [] → Reshape.all_countries df = [])
  ∧ (∀ c cells rs, rows df = (c, cells) :: rs →
       Reshape.all_countries df
       = c :: filter (fun x => x ≠ c)
                (Reshape.all_countries
                   {| year_columns := year_columns df; rows := rs |})).
Proof.
  unfold Reshape.all_countries. split; [apply NoDup_unique|].
  split; [intros c; apply elem_of_unique|].
  split; [apply unique_from_sublist|]. split; [apply unique_NoDup|].
  split; [by intros ->|].
  intros c cells rs ->. simpl. apply unique_cons.
Qed.

(** A name met again is dropped where it repeats, not where it first
    stood. *)
Example all_countries_first_appearance :
  Reshape.all_countries
    {| year_columns := ["1800"];
       rows := [("A", ["1"]); ("B", ["2"]); ("A", ["3"])] |}
  = ["A"; "B"].
Proof. vm_compute. reflexivity. Qed.

(** X20.  When the startup succeeds it leaves the long table it built, a
    country list without repetition that holds the country of every record
    of the table, and nothing printed. *)
Theorem startup_establishes_the_invariant `{Scope} df s :
  App.startup df = Ok s →
  state_ok s
  ∧ Reshape.df_pivot df = Ok (App.df_pivot s)
  ∧ country_set s = Reshape.all_countries df
  ∧ App.stdout s = [].
Proof.
  intros Hstart. split; [by eapply startup_state_ok|by apply startup_globals].
Qed.

Lemma startup_establishes_the_invariant_witness :
  state_ok sample_state
  ∧ Reshape.df_pivot sample_df = Ok (App.df_pivot sample_state)
  ∧ country_set sample_state = Reshape.all_countries sample_df
  ∧ App.stdout sample_state = [].
Proof.
  apply (startup_establishes_the_invariant sample_df sample_state).
  vm_compute. reflexivity.
Defined.

(** ** A year's spelling, read back *)

Lemma string_app_assoc (a b c : string) : (a +:+ b) +:+ c = a +:+ (b +:+ c).
Proof.
  induction a as [|x a IH]; [done|].
  change (String x ((a +:+ b) +:+ c) = String x (a +:+ (b +:+ c))).
  by rewrite IH.
Qed.

Lemma string_app_nil_r (a : string) : a +:+ "" = a.
Proof.
  induction a as [|x a IH]; [done|].
  change (String x (a +:+ "") = String x a). by rewrite IH.
Qed.

Lemma digits_value_from_app (a b : string) : ∀ acc,
  Lex.digits_value_from acc (a +:+ b)
  = Lex.digits_value_from (Lex.digits_value_from acc a) b.
Proof.
  induction a as [|x a IH]; intros acc; [done|].
  change (Lex.digits_value_from (10 * acc + Lex.digit_value x) (a +:+ b)
          = Lex.digits_value_from
              (Lex.digits_value_from (10 * acc + Lex.digit_value x) a) b).
  apply IH.
Qed.

Lemma string_forall_app p (a b : string) :
  Lex.string_forall p (a +:+ b) = Lex.string_forall p a && Lex.string_forall p b.
Proof.
  induction a as [|x a IH]; [done|].
  change (p x && Lex.string_forall p (a +:+ b)
          = p x && Lex.string_forall p a && Lex.string_forall p b).
  by rewrite IH, andb_assoc.
Qed.

Lemma pretty_N_char_digit (n : N) :
  (n < 10)%N →
  Lex.is_digit (pretty_N_char n) = true
  ∧ Lex.digit_value (pretty_N_char n) = Z.of_N n.
Proof.
  intros Hn.
  assert (n = 0 ∨ n = 1 ∨ n = 2 ∨ n = 3 ∨ n = 4 ∨ n = 5 ∨ n = 6 ∨ n = 7
          ∨ n = 8 ∨ n = 9)%N as Hcases by lia.
  repeat (destruct Hcases as [->|Hcases]; [by split|]). subst n. by split.
Qed.

(** [pretty_N_go x s] puts the decimal digits of [x] before [s]. *)
Lemma pretty_N_go_digits (x : N) : ∀ s,
  ∃ d w, pretty_N_go x s = d +:+ s
       ∧ Lex.string_forall Lex.is_digit d = true
       ∧ ((0 < x)%N → d ≠ "")
       ∧ ∀ acc, Lex.digits_value_from acc d = acc * w + Z.of_N x.
Proof.
  induction (N.lt_wf_0 x) as [x _ IH]; intros s.
  destruct (decide (x = 0%N)) as [->|Hx].
  - exists "", 1. rewrite pretty_N_go_0. repeat split; [lia|]. intros acc. simpl. lia.
  - assert (0 < x)%N as Hpos by lia.
    rewrite pretty_N_go_step by done.
    set (c := pretty_N_char (x `mod` 10)).
    destruct (IH (x `div` 10)%N) with (s := String c s)
      as (d & w & Hd & Hdig & _ & Hval); [by apply N.div_lt|].
    destruct (pretty_N_char_digit (x `mod` 10)) as [Hc1 Hc2];
      [by apply N.mod_lt|]. fold c in Hc1, Hc2.
    exists (d +:+ String c ""), (10 * w).
    split; [by rewrite Hd, string_app_assoc|].
    split; [rewrite string_forall_app, Hdig; simpl; by rewrite Hc1|].
    split; [by destruct d|].
    intros acc. rewrite digits_value_from_app, Hval. simpl. rewrite Hc2.
    rewrite (N.div_mod x 10) at 3 by done.
    rewrite N2Z.inj_add, N2Z.inj_mul. simpl. lia.
Qed.

Lemma pretty_positive_digits (p : positive) :
  ∃ c d, pretty (Z.pos p) = String c d
       ∧ Lex.is_digit c = true
       ∧ Lex.string_forall Lex.is_digit d = true
       ∧ Lex.digits_value (String c d) = Z.pos p.
Proof.
  destruct (pretty_N_go_digits (N.pos p) "") as (d & w & Hd & Hdig & Hne & Hval).
  rewrite string_app_nil_r in Hd.
  assert (Hp : pretty (Z.pos p) = d).
  { unfold pretty, pretty_Z, pretty, pretty_positive, pretty, pretty_N.
    by rewrite decide_False. }
  destruct d as [|c d]; [by destruct Hne|].
  simpl in Hdig. apply andb_prop in Hdig as [Hc Hdig].
  exists c, d. repeat split; try done.
  unfold Lex.digits_value. rewrite Hval. simpl. lia.
Qed.

(** X18.  A year read back from its decimal spelling is the year: [int]
    of [str(y)] returns [y], for every int64 [y]; so each key of the
    slider's marks denotes the year it was made from. *)
Theorem py_int_of_str (y : Z) :
  - 2 ^ 63 <= y < 2 ^ 63 → Num.py_int (pretty y) = Ok y.
Proof.
  intros Hy. unfold Num.py_int.
  assert (Hsigned : Num.int_signed (pretty y) = Some y).
  { destruct y as [|p|p].
    - done.
    - destruct (pretty_positive_digits p) as (c & d & -> & Hc & Hd & Hval).
      unfold Num.int_signed.
      destruct (Ascii.eqb_spec c "-") as [->|_]; [done|].
      destruct (Ascii.eqb_spec c "+") as [->|_]; [done|].
      simpl. by rewrite Hc, Hd, <- Hval.
    - destruct (pretty_positive_digits p) as (c & d & Hp & Hc & Hd & Hval).
      change (pretty (Z.neg p)) with (String "-" (pretty (Z.pos p))).
      rewrite Hp. unfold Num.int_signed.
      change (Ascii.eqb "-" "-") with true. cbv iota.
      replace (String.eqb (String c d) "") with false by done.
      simpl. rewrite Hc, Hd. simpl. f_equal.
      change (Lex.digits_value_from (10 * 0 + Lex.digit_value c) d)
        with (Lex.digits_value (String c d)). rewrite Hval. done. }
  rewrite Hsigned.
  destruct (Z.leb_spec (- 2 ^ 63) y); [|lia].
  destruct (Z.ltb_spec y (2 ^ 63)); [done|lia].
Qed.

Lemma py_int_of_str_witness : Num.py_int (pretty 1825) = Ok 1825.
Proof. apply (py_int_of_str 1825). lia. Defined.
